(** * A shallow embedding of the [cvss] crate of rustsec

    Metric kinds ([metric.rs]), metric value types ([v3/temporal/e.rs],
    [v3/environmental/ar.rs], [v4/base/ac.rs], [v4/base/av.rs]) and the
    CVSS v3.1 Environmental aggregate ([v3/environmental.rs]): its scoring
    and its vector-string parser.

    Conventions of the embedding:
    - [f64] arithmetic is modelled as exact rational arithmetic ([Q]);
      every weight of the source is a decimal literal, so the literal
      [0.97] becomes [97 # 100];
    - [&str] is [string] (ASCII), [Option] is [option], [Result<T>] is
      [Result T] below;
    - a fieldless [enum] deriving [Ord] compares by the position of its
      variants, written out as an explicit [discriminant]. *)

From Stdlib Require Import String Ascii List Bool ZArith QArith Qround Qminmax Qabs Lia Lqa DecimalNat.
Import ListNotations.
Open Scope string_scope.

(** ** Errors and results *)

(** [enum MetricType] of [metric.rs]; its variants live in a module so
    that they read [MetricType.S] as in the source and do not shadow
    [nat]'s [S]. *)
Module MetricType.
Inductive MetricType :=
  | A | AC | AV | C | I | PR | S | UI | E | RL | RC | AR | IR | CR.
End MetricType.
Abbreviation MetricType := MetricType.MetricType.

(** Modelled from the spec: the crate's [Error] enum ([error.rs] is not in
    the source tree), with the variants and payloads [from_str] builds. *)
Inductive Error :=
  | UnknownMetric (name : string)
  | InvalidMetric (metric_type : MetricType) (value : string)
  | InvalidComponent (component : string)
  | InvalidPrefix (prefix : string)
  | UnsupportedVersion (version : string).

Inductive Result (T : Type) :=
  | Ok (v : T)
  | Err (e : Error).
Arguments Ok {T} v.
Arguments Err {T} e.

(** The [?] operator. *)
Definition bind {T U : Type} (r : Result T) (k : T -> Result U) : Result U :=
  match r with
  | Ok v => k v
  | Err e => Err e
  end.

Notation "x <- r ;; k" := (bind r (fun x => k))
  (at level 61, r at next level, right associativity).

Definition map_result {T U : Type} (f : T -> U) (r : Result T) : Result U :=
  match r with
  | Ok v => Ok (f v)
  | Err e => Err e
  end.

(** ** Metric kind registry ([metric.rs]) *)

Definition MetricType_name (m : MetricType) : string :=
  match m with
  | MetricType.A => "A"
  | MetricType.AC => "AC"
  | MetricType.AV => "AV"
  | MetricType.C => "C"
  | MetricType.I => "I"
  | MetricType.PR => "PR"
  | MetricType.S => "S"
  | MetricType.UI => "UI"
  | MetricType.E => "E"
  | MetricType.RL => "RL"
  | MetricType.RC => "RC"
  | MetricType.AR => "AR"
  | MetricType.IR => "IR"
  | MetricType.CR => "CR"
  end.

(** [impl FromStr for MetricType]: one arm per acronym, tried in order. *)
Definition MetricType_from_str (s : string) : Result MetricType :=
  if String.eqb s "A" then Ok MetricType.A
  else if String.eqb s "AC" then Ok MetricType.AC
  else if String.eqb s "AV" then Ok MetricType.AV
  else if String.eqb s "C" then Ok MetricType.C
  else if String.eqb s "I" then Ok MetricType.I
  else if String.eqb s "PR" then Ok MetricType.PR
  else if String.eqb s "S" then Ok MetricType.S
  else if String.eqb s "UI" then Ok MetricType.UI
  else if String.eqb s "E" then Ok MetricType.E
  else if String.eqb s "RL" then Ok MetricType.RL
  else if String.eqb s "RC" then Ok MetricType.RL
  else if String.eqb s "AR" then Ok MetricType.AR
  else if String.eqb s "IR" then Ok MetricType.IR
  else if String.eqb s "CR" then Ok MetricType.CR
  else Err (UnknownMetric s).

Definition MetricType_eq_dec (a b : MetricType) : {a = b} + {a <> b}.
Proof. decide equality. Defined.

(** ** The [Metric] trait

    [TYPE], [score] and [as_str] of the trait, together with the
    [FromStr] implementation every metric provides and the variant
    position used by the derived [Ord]. *)
Class Metric (T : Type) := {
  TYPE : MetricType;
  score : T -> Q;
  as_str : T -> string;
  from_str : string -> Result T
}.

(** [#[derive(PartialOrd, Ord)]] on a fieldless enum: the position of the
    variant in its declaration. *)
Class DerivedOrd (T : Type) := {
  discriminant : T -> nat
}.

Definition derived_lt {T : Type} `{DerivedOrd T} (a b : T) : Prop :=
  (discriminant a < discriminant b)%nat.

(** [Display]: ["<acronym>:<code>"]. *)
Definition metric_display {T : Type} `{Metric T} (v : T) : string :=
  MetricType_name TYPE ++ ":" ++ as_str v.

(** ** Exploit Code Maturity ([v3/temporal/e.rs]) *)
Module Temporal.

Inductive ExploitCodeMaturity :=
  | NotDefined | High | Functional | ProofOfConcept | Unproven.

Definition ExploitCodeMaturity_default : ExploitCodeMaturity := NotDefined.

Definition ExploitCodeMaturity_score (m : ExploitCodeMaturity) : Q :=
  match m with
  | NotDefined => 1
  | High => 1
  | Functional => 97 # 100
  | ProofOfConcept => 94 # 100
  | Unproven => 91 # 100
  end.

Definition ExploitCodeMaturity_as_str (m : ExploitCodeMaturity) : string :=
  match m with
  | NotDefined => "X"
  | High => "H"
  | Functional => "F"
  | ProofOfConcept => "P"
  | Unproven => "U"
  end.

Definition ExploitCodeMaturity_from_str (s : string) : Result ExploitCodeMaturity :=
  if String.eqb s "X" then Ok NotDefined
  else if String.eqb s "H" then Ok High
  else if String.eqb s "F" then Ok Functional
  else if String.eqb s "P" then Ok ProofOfConcept
  else if String.eqb s "U" then Ok Unproven
  else Err (InvalidMetric MetricType.E s).

Definition ExploitCodeMaturity_discriminant (m : ExploitCodeMaturity) : nat :=
  match m with
  | NotDefined => 0 | High => 1 | Functional => 2 | ProofOfConcept => 3 | Unproven => 4
  end.

#[global] Instance Metric_ExploitCodeMaturity : Metric ExploitCodeMaturity := {
  TYPE := MetricType.E;
  score := ExploitCodeMaturity_score;
  as_str := ExploitCodeMaturity_as_str;
  from_str := ExploitCodeMaturity_from_str
}.

#[global] Instance DerivedOrd_ExploitCodeMaturity : DerivedOrd ExploitCodeMaturity := {
  discriminant := ExploitCodeMaturity_discriminant
}.

End Temporal.

(** ** Availability Requirement ([v3/environmental/ar.rs]) *)
Module EnvReq.

Inductive AvailabilityRequirement :=
  | NotDefined | High | Medium | Low.

Definition AvailabilityRequirement_default : AvailabilityRequirement := NotDefined.

Definition AvailabilityRequirement_score (m : AvailabilityRequirement) : Q :=
  match m with
  | NotDefined => 1
  | High => 3 # 2
  | Medium => 1
  | Low => 1 # 2
  end.

Definition AvailabilityRequirement_as_str (m : AvailabilityRequirement) : string :=
  match m with
  | NotDefined => "X"
  | High => "H"
  | Medium => "M"
  | Low => "L"
  end.

Definition AvailabilityRequirement_from_str (s : string) : Result AvailabilityRequirement :=
  if String.eqb s "X" then Ok NotDefined
  else if String.eqb s "H" then Ok High
  else if String.eqb s "M" then Ok Medium
  else if String.eqb s "L" then Ok Low
  else Err (InvalidMetric MetricType.AR s).

Definition AvailabilityRequirement_discriminant (m : AvailabilityRequirement) : nat :=
  match m with
  | NotDefined => 0 | High => 1 | Medium => 2 | Low => 3
  end.

#[global] Instance Metric_AvailabilityRequirement : Metric AvailabilityRequirement := {
  TYPE := MetricType.AR;
  score := AvailabilityRequirement_score;
  as_str := AvailabilityRequirement_as_str;
  from_str := AvailabilityRequirement_from_str
}.

#[global] Instance DerivedOrd_AvailabilityRequirement : DerivedOrd AvailabilityRequirement := {
  discriminant := AvailabilityRequirement_discriminant
}.

End EnvReq.

(** ** CVSS v4.0 Attack Complexity ([v4/base/ac.rs]) *)
Module V4.

Inductive AttackComplexity := AC_High | AC_Low.

Definition AttackComplexity_default : AttackComplexity := AC_High.

Definition AttackComplexity_score (m : AttackComplexity) : Q :=
  match m with
  | AC_High => 44 # 100
  | AC_Low => 77 # 100
  end.

Definition AttackComplexity_as_str (m : AttackComplexity) : string :=
  match m with
  | AC_High => "H"
  | AC_Low => "L"
  end.

Definition AttackComplexity_from_str (s : string) : Result AttackComplexity :=
  if String.eqb s "H" then Ok AC_High
  else if String.eqb s "L" then Ok AC_Low
  else Err (InvalidMetric MetricType.AC s).

Definition AttackComplexity_discriminant (m : AttackComplexity) : nat :=
  match m with AC_High => 0 | AC_Low => 1 end.

#[global] Instance Metric_AttackComplexity : Metric AttackComplexity := {
  TYPE := MetricType.AC;
  score := AttackComplexity_score;
  as_str := AttackComplexity_as_str;
  from_str := AttackComplexity_from_str
}.

#[global] Instance DerivedOrd_AttackComplexity : DerivedOrd AttackComplexity := {
  discriminant := AttackComplexity_discriminant
}.

(** ** CVSS v4.0 Attack Vector ([v4/base/av.rs]) *)

Inductive AttackVector := Physical | Local | Adjacent | Network.

Definition AttackVector_score (m : AttackVector) : Q :=
  match m with
  | Physical => 20 # 100
  | Local => 55 # 100
  | Adjacent => 62 # 100
  | Network => 85 # 100
  end.

Definition AttackVector_as_str (m : AttackVector) : string :=
  match m with
  | Physical => "P"
  | Local => "L"
  | Adjacent => "A"
  | Network => "N"
  end.

Definition AttackVector_from_str (s : string) : Result AttackVector :=
  if String.eqb s "P" then Ok Physical
  else if String.eqb s "L" then Ok Local
  else if String.eqb s "A" then Ok Adjacent
  else if String.eqb s "N" then Ok Network
  else Err (InvalidMetric MetricType.AV s).

Definition AttackVector_discriminant (m : AttackVector) : nat :=
  match m with Physical => 0 | Local => 1 | Adjacent => 2 | Network => 3 end.

#[global] Instance Metric_AttackVector : Metric AttackVector := {
  TYPE := MetricType.AV;
  score := AttackVector_score;
  as_str := AttackVector_as_str;
  from_str := AttackVector_from_str
}.

#[global] Instance DerivedOrd_AttackVector : DerivedOrd AttackVector := {
  discriminant := AttackVector_discriminant
}.

End V4.

(** ** CVSS v3.1 Base, Temporal and Environmental value types read by
    [Environmental]

    Modelled from the spec: the value types of [v3/base/{av,ac,pr,ui,s,c,i,a}.rs],
    [v3/temporal/{rl,rc}.rs] and [v3/environmental/{cr,ir}.rs] are not in
    the source tree. Their levels and one-letter codes are those of the
    vector-string grammar (spec §3, §4.2) and their weights the constants
    of the published CVSS v3.1 tables that spec §3 refers to. The three
    impact metrics C/I/A share their levels and weights and are one type
    here, whose parser takes the metric kind that its error reports;
    likewise the Confidentiality and Integrity Requirements reuse the
    levels of [AvailabilityRequirement]. *)
Module V3.

Inductive AttackVector := Network | Adjacent | Local | Physical.

Definition AttackVector_score (m : AttackVector) : Q :=
  match m with
  | Network => 85 # 100 | Adjacent => 62 # 100 | Local => 55 # 100 | Physical => 20 # 100
  end.

Definition AttackVector_from_str (s : string) : Result AttackVector :=
  if String.eqb s "N" then Ok Network
  else if String.eqb s "A" then Ok Adjacent
  else if String.eqb s "L" then Ok Local
  else if String.eqb s "P" then Ok Physical
  else Err (InvalidMetric MetricType.AV s).

Inductive AttackComplexity := AC_Low | AC_High.

Definition AttackComplexity_score (m : AttackComplexity) : Q :=
  match m with AC_Low => 77 # 100 | AC_High => 44 # 100 end.

Definition AttackComplexity_from_str (s : string) : Result AttackComplexity :=
  if String.eqb s "L" then Ok AC_Low
  else if String.eqb s "H" then Ok AC_High
  else Err (InvalidMetric MetricType.AC s).

Inductive PrivilegesRequired := PR_None | PR_Low | PR_High.

(** [PrivilegesRequired::scoped_score]: the weight depends on [Scope]. *)
Definition PrivilegesRequired_scoped_score (m : PrivilegesRequired) (scope_change : bool) : Q :=
  match m with
  | PR_None => 85 # 100
  | PR_Low => if scope_change then 68 # 100 else 62 # 100
  | PR_High => if scope_change then 50 # 100 else 27 # 100
  end.

Definition PrivilegesRequired_from_str (s : string) : Result PrivilegesRequired :=
  if String.eqb s "N" then Ok PR_None
  else if String.eqb s "L" then Ok PR_Low
  else if String.eqb s "H" then Ok PR_High
  else Err (InvalidMetric MetricType.PR s).

Inductive UserInteraction := UI_None | UI_Required.

Definition UserInteraction_score (m : UserInteraction) : Q :=
  match m with UI_None => 85 # 100 | UI_Required => 62 # 100 end.

Definition UserInteraction_from_str (s : string) : Result UserInteraction :=
  if String.eqb s "N" then Ok UI_None
  else if String.eqb s "R" then Ok UI_Required
  else Err (InvalidMetric MetricType.UI s).

Inductive Scope := Unchanged | Changed.

Definition Scope_is_changed (m : Scope) : bool :=
  match m with Unchanged => false | Changed => true end.

Definition Scope_from_str (s : string) : Result Scope :=
  if String.eqb s "U" then Ok Unchanged
  else if String.eqb s "C" then Ok Changed
  else Err (InvalidMetric MetricType.S s).

(** The levels of Confidentiality (C), Integrity (I) and Availability (A). *)
Inductive Impact := Imp_None | Imp_Low | Imp_High.

Definition Impact_score (m : Impact) : Q :=
  match m with Imp_None => 0 | Imp_Low => 22 # 100 | Imp_High => 56 # 100 end.

Definition Impact_from_str (kind : MetricType) (s : string) : Result Impact :=
  if String.eqb s "N" then Ok Imp_None
  else if String.eqb s "L" then Ok Imp_Low
  else if String.eqb s "H" then Ok Imp_High
  else Err (InvalidMetric kind s).

Inductive RemediationLevel :=
  | RL_NotDefined | RL_Unavailable | RL_Workaround | RL_TemporaryFix | RL_OfficialFix.

Definition RemediationLevel_score (m : RemediationLevel) : Q :=
  match m with
  | RL_NotDefined => 1 | RL_Unavailable => 1 | RL_Workaround => 97 # 100
  | RL_TemporaryFix => 96 # 100 | RL_OfficialFix => 95 # 100
  end.

Definition RemediationLevel_from_str (s : string) : Result RemediationLevel :=
  if String.eqb s "X" then Ok RL_NotDefined
  else if String.eqb s "U" then Ok RL_Unavailable
  else if String.eqb s "W" then Ok RL_Workaround
  else if String.eqb s "T" then Ok RL_TemporaryFix
  else if String.eqb s "O" then Ok RL_OfficialFix
  else Err (InvalidMetric MetricType.RL s).

Inductive ReportConfidence := RC_NotDefined | RC_Confirmed | RC_Reasonable | RC_Unknown.

Definition ReportConfidence_score (m : ReportConfidence) : Q :=
  match m with
  | RC_NotDefined => 1 | RC_Confirmed => 1 | RC_Reasonable => 96 # 100 | RC_Unknown => 92 # 100
  end.

Definition ReportConfidence_from_str (s : string) : Result ReportConfidence :=
  if String.eqb s "X" then Ok RC_NotDefined
  else if String.eqb s "C" then Ok RC_Confirmed
  else if String.eqb s "R" then Ok RC_Reasonable
  else if String.eqb s "U" then Ok RC_Unknown
  else Err (InvalidMetric MetricType.RC s).

(** Confidentiality (CR) and Integrity (IR) Requirements. *)
Definition Requirement_from_str (kind : MetricType) (s : string)
  : Result EnvReq.AvailabilityRequirement :=
  match EnvReq.AvailabilityRequirement_from_str s with
  | Ok v => Ok v
  | Err _ => Err (InvalidMetric kind s)
  end.

End V3.

(** ** The Environmental aggregate ([v3/environmental.rs]) *)
Module Env.

(** [struct Environmental]. The struct declares [minor_version] and [rl];
    its methods read [av], [ac], [pr], [ui], [s], [c], [i], [a] and
    [from_str] writes [e], so the record carries all of them; [rc], [ar],
    [ir] and [cr] complete one optional field per metric kind (spec §3:
    the Environmental group carries CR/IR/AR). *)
Record Environmental := mkEnvironmental {
  minor_version : nat;
  av : option V3.AttackVector;
  ac : option V3.AttackComplexity;
  pr : option V3.PrivilegesRequired;
  ui : option V3.UserInteraction;
  s : option V3.Scope;
  c : option V3.Impact;
  i : option V3.Impact;
  a : option V3.Impact;
  e : option Temporal.ExploitCodeMaturity;
  rl : option V3.RemediationLevel;
  rc : option V3.ReportConfidence;
  ar : option EnvReq.AvailabilityRequirement;
  ir : option EnvReq.AvailabilityRequirement;
  cr : option EnvReq.AvailabilityRequirement
}.

(** [#[derive(Default)]]: every metric absent, [minor_version] 0. *)
Definition Environmental_default : Environmental :=
  mkEnvironmental 0 None None None None None None None None None None None None None None.

(** Field assignment [metrics.<field> = x]. *)
Definition set_av (x : option V3.AttackVector) (m : Environmental) : Environmental :=
  mkEnvironmental m.(minor_version) x m.(ac) m.(pr) m.(ui) m.(s) m.(c) m.(i) m.(a) m.(e) m.(rl) m.(rc) m.(ar) m.(ir) m.(cr).
Definition set_ac (x : option V3.AttackComplexity) (m : Environmental) : Environmental :=
  mkEnvironmental m.(minor_version) m.(av) x m.(pr) m.(ui) m.(s) m.(c) m.(i) m.(a) m.(e) m.(rl) m.(rc) m.(ar) m.(ir) m.(cr).
Definition set_pr (x : option V3.PrivilegesRequired) (m : Environmental) : Environmental :=
  mkEnvironmental m.(minor_version) m.(av) m.(ac) x m.(ui) m.(s) m.(c) m.(i) m.(a) m.(e) m.(rl) m.(rc) m.(ar) m.(ir) m.(cr).
Definition set_ui (x : option V3.UserInteraction) (m : Environmental) : Environmental :=
  mkEnvironmental m.(minor_version) m.(av) m.(ac) m.(pr) x m.(s) m.(c) m.(i) m.(a) m.(e) m.(rl) m.(rc) m.(ar) m.(ir) m.(cr).
Definition set_s (x : option V3.Scope) (m : Environmental) : Environmental :=
  mkEnvironmental m.(minor_version) m.(av) m.(ac) m.(pr) m.(ui) x m.(c) m.(i) m.(a) m.(e) m.(rl) m.(rc) m.(ar) m.(ir) m.(cr).
Definition set_c (x : option V3.Impact) (m : Environmental) : Environmental :=
  mkEnvironmental m.(minor_version) m.(av) m.(ac) m.(pr) m.(ui) m.(s) x m.(i) m.(a) m.(e) m.(rl) m.(rc) m.(ar) m.(ir) m.(cr).
Definition set_i (x : option V3.Impact) (m : Environmental) : Environmental :=
  mkEnvironmental m.(minor_version) m.(av) m.(ac) m.(pr) m.(ui) m.(s) m.(c) x m.(a) m.(e) m.(rl) m.(rc) m.(ar) m.(ir) m.(cr).
Definition set_a (x : option V3.Impact) (m : Environmental) : Environmental :=
  mkEnvironmental m.(minor_version) m.(av) m.(ac) m.(pr) m.(ui) m.(s) m.(c) m.(i) x m.(e) m.(rl) m.(rc) m.(ar) m.(ir) m.(cr).
Definition set_e (x : option Temporal.ExploitCodeMaturity) (m : Environmental) : Environmental :=
  mkEnvironmental m.(minor_version) m.(av) m.(ac) m.(pr) m.(ui) m.(s) m.(c) m.(i) m.(a) x m.(rl) m.(rc) m.(ar) m.(ir) m.(cr).
Definition set_rl (x : option V3.RemediationLevel) (m : Environmental) : Environmental :=
  mkEnvironmental m.(minor_version) m.(av) m.(ac) m.(pr) m.(ui) m.(s) m.(c) m.(i) m.(a) m.(e) x m.(rc) m.(ar) m.(ir) m.(cr).
Definition set_rc (x : option V3.ReportConfidence) (m : Environmental) : Environmental :=
  mkEnvironmental m.(minor_version) m.(av) m.(ac) m.(pr) m.(ui) m.(s) m.(c) m.(i) m.(a) m.(e) m.(rl) x m.(ar) m.(ir) m.(cr).
Definition set_ar (x : option EnvReq.AvailabilityRequirement) (m : Environmental) : Environmental :=
  mkEnvironmental m.(minor_version) m.(av) m.(ac) m.(pr) m.(ui) m.(s) m.(c) m.(i) m.(a) m.(e) m.(rl) m.(rc) x m.(ir) m.(cr).
Definition set_ir (x : option EnvReq.AvailabilityRequirement) (m : Environmental) : Environmental :=
  mkEnvironmental m.(minor_version) m.(av) m.(ac) m.(pr) m.(ui) m.(s) m.(c) m.(i) m.(a) m.(e) m.(rl) m.(rc) m.(ar) x m.(cr).
Definition set_cr (x : option EnvReq.AvailabilityRequirement) (m : Environmental) : Environmental :=
  mkEnvironmental m.(minor_version) m.(av) m.(ac) m.(pr) m.(ui) m.(s) m.(c) m.(i) m.(a) m.(e) m.(rl) m.(rc) m.(ar) m.(ir) x.

(** *** Scores *)

(** Modelled from the spec: [v3/score.rs] is not in the source tree.
    [Score] wraps the numeric value; [Score::new] stores it. *)
Record Score := Score_new { value : Q }.

(** Modelled from the spec (§4.6): [Score::roundup] scales the value by
    100000, takes the ceiling, divides it by 10000, rounds that up again to
    a whole number and divides by 10. *)
Definition roundup (x : Q) : Q :=
  let int_input := Qceiling (x * 100000) in
  inject_Z (Qceiling (inject_Z int_input / 10000)) / 10.

Definition Score_roundup (sc : Score) : Score := Score_new (roundup (value sc)).

(** [self.<metric>.map(|m| m.score()).unwrap_or(0.0)] *)
Definition score_or_zero {T : Type} (f : T -> Q) (o : option T) : Q :=
  match o with
  | Some v => f v
  | None => 0
  end.

(** [Environmental::is_scope_changed] *)
Definition is_scope_changed (m : Environmental) : bool :=
  match m.(s) with
  | Some sc => V3.Scope_is_changed sc
  | None => false
  end.

(** [Environmental::exploitability] *)
Definition exploitability (m : Environmental) : Score :=
  let av_score := score_or_zero V3.AttackVector_score m.(av) in
  let ac_score := score_or_zero V3.AttackComplexity_score m.(ac) in
  let ui_score := score_or_zero V3.UserInteraction_score m.(ui) in
  let pr_score :=
    score_or_zero (fun p => V3.PrivilegesRequired_scoped_score p (is_scope_changed m)) m.(pr) in
  Score_new ((822 # 100) * av_score * ac_score * pr_score * ui_score).

(** [Environmental::impact] *)
Definition impact (m : Environmental) : Score :=
  let c_score := score_or_zero V3.Impact_score m.(c) in
  let i_score := score_or_zero V3.Impact_score m.(i) in
  let a_score := score_or_zero V3.Impact_score m.(a) in
  Score_new (1 - Qabs ((1 - c_score) * (1 - i_score) * (1 - a_score))).

(** The [iss_scoped] binding of [Environmental::score]. *)
Definition iss_scoped (m : Environmental) : Q :=
  let iss := value (impact m) in
  if negb (is_scope_changed m) then (642 # 100) * iss
  else ((752 # 100) * (iss - (29 # 1000))) - ((325 # 100) * (iss - (2 # 100)) ^ 15).

(** [Environmental::score] ([powf(15.0)] is the integer power 15). *)
Definition Environmental_score (m : Environmental) : Score :=
  let exploitability := value (exploitability m) in
  let iss_scoped := iss_scoped m in
  let score :=
    if Qle_bool iss_scoped 0 then 0
    else if negb (is_scope_changed m) then Qmin (iss_scoped + exploitability) 10
    else Qmin ((108 # 100) * (iss_scoped + exploitability)) 10 in
  Score_roundup (Score_new score).

End Env.

(** ** Strings *)

(** [char::to_ascii_uppercase]: ['a'..'z'] to ['A'..'Z'], other bytes kept. *)
Definition ascii_to_upper (ch : ascii) : ascii :=
  let n := nat_of_ascii ch in
  if ((97 <=? n) && (n <=? 122))%nat then ascii_of_nat (n - 32)%nat else ch.

(** [str::to_ascii_uppercase] *)
Fixpoint to_ascii_uppercase (str : string) : string :=
  match str with
  | EmptyString => EmptyString
  | String ch rest => String (ascii_to_upper ch) (to_ascii_uppercase rest)
  end.

(** [str::split(sep)]: the pieces between the separators, in order; there
    is always at least one piece, and the empty string is one empty piece. *)
Fixpoint split_on (sep : ascii) (str : string) : list string :=
  match str with
  | EmptyString => [EmptyString]
  | String ch rest =>
      if Ascii.eqb ch sep then EmptyString :: split_on sep rest
      else match split_on sep rest with
           | w :: ws => String ch w :: ws
           | [] => [String ch EmptyString]
           end
  end.

(** [Iterator::collect::<Result<Vec<_>>>()]: the first error, in order. *)
Fixpoint collect {T : Type} (rs : list (Result T)) : Result (list T) :=
  match rs with
  | [] => Ok []
  | r :: rest => x <- r ;; xs <- collect rest ;; Ok (x :: xs)
  end.

(** Modelled from the spec: the crate root's [PREFIX] constant ([lib.rs]
    is not in the source tree); spec §4.3 gives the prefix ["CVSS"]. *)
Definition PREFIX : string := "CVSS".

(** ** [impl FromStr for Environmental] *)
Module EnvParse.
Import Env.

(** The closure mapped over the ['/']-separated components. *)
Definition parse_component (component : string) : Result (string * string) :=
  match split_on ":" component with
  | [] => Err (InvalidComponent component)
  | id :: parts =>
      match parts with
      | [] => Err (InvalidComponent component)
      | value :: parts' =>
          match parts' with
          | _ :: _ => Err (InvalidComponent component)
          | [] => Ok (id, value)
          end
      end
  end.

(** One arm of [match id.parse::<MetricType>()? { ... }]. The source's
    match lists the arm [MetricType::E => metrics.e = Some(value.parse()?)].
    Modelled from the spec (§4.8, each [ID:VALUE] pair goes through the
    kind's value parser): the arms of the other kinds, which the source's
    match omits, follow the same shape and store into the kind's field. *)
Definition set_metric (k : MetricType) (value : string) (metrics : Environmental)
  : Result Environmental :=
  match k with
  | MetricType.E =>
      x <- Temporal.ExploitCodeMaturity_from_str value ;; Ok (set_e (Some x) metrics)
  | MetricType.AV => x <- V3.AttackVector_from_str value ;; Ok (set_av (Some x) metrics)
  | MetricType.AC => x <- V3.AttackComplexity_from_str value ;; Ok (set_ac (Some x) metrics)
  | MetricType.PR => x <- V3.PrivilegesRequired_from_str value ;; Ok (set_pr (Some x) metrics)
  | MetricType.UI => x <- V3.UserInteraction_from_str value ;; Ok (set_ui (Some x) metrics)
  | MetricType.S => x <- V3.Scope_from_str value ;; Ok (set_s (Some x) metrics)
  | MetricType.C => x <- V3.Impact_from_str MetricType.C value ;; Ok (set_c (Some x) metrics)
  | MetricType.I => x <- V3.Impact_from_str MetricType.I value ;; Ok (set_i (Some x) metrics)
  | MetricType.A => x <- V3.Impact_from_str MetricType.A value ;; Ok (set_a (Some x) metrics)
  | MetricType.RL => x <- V3.RemediationLevel_from_str value ;; Ok (set_rl (Some x) metrics)
  | MetricType.RC => x <- V3.ReportConfidence_from_str value ;; Ok (set_rc (Some x) metrics)
  | MetricType.AR =>
      x <- EnvReq.AvailabilityRequirement_from_str value ;; Ok (set_ar (Some x) metrics)
  | MetricType.IR => x <- V3.Requirement_from_str MetricType.IR value ;; Ok (set_ir (Some x) metrics)
  | MetricType.CR => x <- V3.Requirement_from_str MetricType.CR value ;; Ok (set_cr (Some x) metrics)
  end.

(** The [for &component in components] loop. *)
Fixpoint parse_metrics (components : list (string * string)) (metrics : Environmental)
  : Result Environmental :=
  match components with
  | [] => Ok metrics
  | (id0, value0) :: rest =>
      let id := to_ascii_uppercase id0 in
      let value := to_ascii_uppercase value0 in
      k <- MetricType_from_str id ;;
      metrics' <- set_metric k value metrics ;;
      parse_metrics rest metrics'
  end.

Definition minor_version_of (version_string : string) : option nat :=
  if String.eqb version_string "3.0" then Some 0%nat
  else if String.eqb version_string "3.1" then Some 1%nat
  else None.

Definition from_str (str : string) : Result Environmental :=
  component_vec <- collect (map parse_component (split_on "/" str)) ;;
  match component_vec with
  | [] => Err (InvalidPrefix str)
  | (id, version_string) :: components =>
      if negb (String.eqb id PREFIX) then Err (InvalidPrefix id)
      else match minor_version_of version_string with
           | None => Err (UnsupportedVersion version_string)
           | Some minor =>
               parse_metrics components
                 (mkEnvironmental minor None None None None None None None None
                    None None None None None None)
           end
  end.

(** A vector string from its prefix, version and [ID:VALUE] pairs. *)
Fixpoint render_components (components : list (string * string)) : string :=
  match components with
  | [] => EmptyString
  | (id, value) :: rest => "/" ++ id ++ ":" ++ value ++ render_components rest
  end.

Definition render (prefix version : string) (components : list (string * string)) : string :=
  prefix ++ ":" ++ version ++ render_components components.

End EnvParse.

(** ** Definitions that follow the spec's words *)
Module SpecSide.

(** Spec §4.5: modified-ISS = min(1, 1 − (1−MC×CR)(1−MI×IR)(1−MA×AR)). *)
Definition spec_modified_iss (mc mi ma cr ir ar : Q) : Q :=
  Qmin 1 (1 - (1 - mc * cr) * (1 - mi * ir) * (1 - ma * ar)).

(** Modelled from the spec: the Temporal score ([v3/temporal.rs] is not
    in the source tree). Spec §4.4: the Base score times the E, RL and RC
    weights, rounded up; an absent metric is its Not Defined level. *)
Definition temporal_score (base_score : Q) (e : option Temporal.ExploitCodeMaturity)
    (rl : option V3.RemediationLevel) (rc : option V3.ReportConfidence) : Q :=
  let e := match e with Some x => x | None => Temporal.ExploitCodeMaturity_default end in
  let rl := match rl with Some x => x | None => V3.RL_NotDefined end in
  let rc := match rc with Some x => x | None => V3.RC_NotDefined end in
  Env.roundup (base_score * Temporal.ExploitCodeMaturity_score e
                 * V3.RemediationLevel_score rl * V3.ReportConfidence_score rc).

End SpecSide.

(** ** Shapes of vector strings, used to state the parser's properties *)
Module Shape.

(** Does [ch] occur in [str]? *)
Fixpoint has_char (ch : ascii) (str : string) : bool :=
  match str with
  | EmptyString => false
  | String x rest => Ascii.eqb x ch || has_char ch rest
  end.

(** Number of occurrences of [ch] in [str]. *)
Fixpoint count_char (ch : ascii) (str : string) : nat :=
  match str with
  | EmptyString => 0
  | String x rest => (if Ascii.eqb x ch then 1 else 0) + count_char ch rest
  end.

(** A piece of a component: no ['/'] and no [':']. *)
Definition clean (str : string) : bool :=
  negb (has_char "/" str) && negb (has_char ":" str).

Definition clean_components (components : list (string * string)) : bool :=
  forallb (fun '(id, value) => clean id && clean value) components.

(** [str::to_ascii_lowercase], to build the lower-case forms of C10. *)
Definition ascii_to_lower (ch : ascii) : ascii :=
  let n := nat_of_ascii ch in
  if ((65 <=? n) && (n <=? 90))%nat then ascii_of_nat (n + 32)%nat else ch.

Fixpoint to_ascii_lowercase (str : string) : string :=
  match str with
  | EmptyString => EmptyString
  | String ch rest => String (ascii_to_lower ch) (to_ascii_lowercase rest)
  end.

Definition lower_component (c : string * string) : string * string :=
  (to_ascii_lowercase (fst c), to_ascii_lowercase (snd c)).

(** A C, I or A metric that carries no weight: absent, or at level None. *)
Definition no_level (o : option V3.Impact) : Prop := o = None \/ o = Some V3.Imp_None.

End Shape.

(** ** [impl fmt::Display for Environmental] and its serde impls *)
Module EnvDisplay.
Import Env.

(** [usize]'s [Display]: the decimal digits of [Nat.to_uint], which has
    no leading zero. *)
Fixpoint uint_to_string (d : Decimal.uint) : string :=
  match d with
  | Decimal.Nil => EmptyString
  | Decimal.D0 d => String "0" (uint_to_string d)
  | Decimal.D1 d => String "1" (uint_to_string d)
  | Decimal.D2 d => String "2" (uint_to_string d)
  | Decimal.D3 d => String "3" (uint_to_string d)
  | Decimal.D4 d => String "4" (uint_to_string d)
  | Decimal.D5 d => String "5" (uint_to_string d)
  | Decimal.D6 d => String "6" (uint_to_string d)
  | Decimal.D7 d => String "7" (uint_to_string d)
  | Decimal.D8 d => String "8" (uint_to_string d)
  | Decimal.D9 d => String "9" (uint_to_string d)
  end.

Definition usize_display (n : nat) : string := uint_to_string (Nat.to_uint n).

(** Modelled from the spec: [as_str] of the v3 Base value types
    ([v3/base/*.rs] is not in the source tree); the codes are those their
    parsers above accept (spec §3, §4.3). *)
Definition AttackVector_as_str (m : V3.AttackVector) : string :=
  match m with V3.Network => "N" | V3.Adjacent => "A" | V3.Local => "L" | V3.Physical => "P" end.

Definition AttackComplexity_as_str (m : V3.AttackComplexity) : string :=
  match m with V3.AC_Low => "L" | V3.AC_High => "H" end.

Definition PrivilegesRequired_as_str (m : V3.PrivilegesRequired) : string :=
  match m with V3.PR_None => "N" | V3.PR_Low => "L" | V3.PR_High => "H" end.

Definition UserInteraction_as_str (m : V3.UserInteraction) : string :=
  match m with V3.UI_None => "N" | V3.UI_Required => "R" end.

Definition Scope_as_str (m : V3.Scope) : string :=
  match m with V3.Unchanged => "U" | V3.Changed => "C" end.

Definition Impact_as_str (m : V3.Impact) : string :=
  match m with V3.Imp_None => "N" | V3.Imp_Low => "L" | V3.Imp_High => "H" end.

(** One arm of [write_metrics!]:
    [if let Some(metric) = $metric { write!($f, "/{}", metric)?; }], where a
    metric displays as ["<acronym>:<code>"]. *)
Definition write_metric {T : Type} (k : MetricType) (as_str : T -> string) (o : option T)
  : string :=
  match o with
  | Some metric => "/" ++ MetricType_name k ++ ":" ++ as_str metric
  | None => EmptyString
  end.

(** [Environmental]'s [fmt]: [write!(f, "{}:3.{}", PREFIX, self.minor_version)]
    then [write_metrics!(f, self.av, self.ac, self.pr, self.ui, self.s,
    self.c, self.i, self.a)]. *)
Definition Environmental_display (m : Environmental) : string :=
  PREFIX ++ ":3." ++ usize_display m.(minor_version)
  ++ write_metric MetricType.AV AttackVector_as_str m.(av)
  ++ write_metric MetricType.AC AttackComplexity_as_str m.(ac)
  ++ write_metric MetricType.PR PrivilegesRequired_as_str m.(pr)
  ++ write_metric MetricType.UI UserInteraction_as_str m.(ui)
  ++ write_metric MetricType.S Scope_as_str m.(s)
  ++ write_metric MetricType.C Impact_as_str m.(c)
  ++ write_metric MetricType.I Impact_as_str m.(i)
  ++ write_metric MetricType.A Impact_as_str m.(a).

(** [impl Serialize]: [self.to_string()]. *)
Definition serialize (m : Environmental) : string := Environmental_display m.

(** [impl Deserialize]: [String::deserialize(..)?.parse()]. *)
Definition deserialize (str : string) : Result Environmental := EnvParse.from_str str.

(** The [ID:VALUE] pair one arm of [write_metrics!] writes, if any. *)
Definition opt_component {T : Type} (k : MetricType) (as_str : T -> string) (o : option T)
  : list (string * string) :=
  match o with
  | Some metric => [(MetricType_name k, as_str metric)]
  | None => []
  end.

Definition display_components (m : Environmental) : list (string * string) :=
  opt_component MetricType.AV AttackVector_as_str m.(av)
  ++ opt_component MetricType.AC AttackComplexity_as_str m.(ac)
  ++ opt_component MetricType.PR PrivilegesRequired_as_str m.(pr)
  ++ opt_component MetricType.UI UserInteraction_as_str m.(ui)
  ++ opt_component MetricType.S Scope_as_str m.(s)
  ++ opt_component MetricType.C Impact_as_str m.(c)
  ++ opt_component MetricType.I Impact_as_str m.(i)
  ++ opt_component MetricType.A Impact_as_str m.(a).

(** The fields [Display] writes: the minor version and the eight Base
    metrics; the other fields are absent. *)
Definition displayed_fields (m : Environmental) : Environmental :=
  mkEnvironmental m.(minor_version) m.(av) m.(ac) m.(pr) m.(ui) m.(s) m.(c) m.(i) m.(a)
    None None None None None None.

End EnvDisplay.

(** * Properties *)

(** ** Metric kind registry *)
Module RegistryProps.

(** Claim C1 (code_bug). Parsing the canonical acronym of Report Confidence
    does not give Report Confidence back: [MetricType::from_str("RC")] is
    [Ok(MetricType::RL)], so the acronym-to-kind mapping is not a
    bijection. *)
Theorem from_str_name_RC :
  MetricType_from_str (MetricType_name MetricType.RC) = Ok MetricType.RL
  /\ MetricType.RL <> MetricType.RC.
Proof. split; [reflexivity | discriminate]. Qed.

(** Every other kind round-trips. *)
Lemma from_str_name_other (k : MetricType) :
  k <> MetricType.RC -> MetricType_from_str (MetricType_name k) = Ok k.
Proof. destruct k; intro Hk; try reflexivity; congruence. Qed.

End RegistryProps.

(** ** Metric value types *)
Module ValueProps.

(** The contract of [parse(letter)]: the parser accepts exactly the
    canonical codes, each to the variant whose code it is, and reports any
    other input as [InvalidMetric] carrying the metric's kind and the
    input. *)
Definition parse_contract (T : Type) `{Metric T} (kind : MetricType) : Prop :=
  TYPE = kind
  /\ (forall str v, from_str str = Ok v <-> as_str v = str)
  /\ (forall str, (forall v, as_str v <> str) -> from_str str = Err (InvalidMetric kind str)).

Ltac eqb_cases str :=
  repeat match goal with
         | |- context [String.eqb str ?lit] => destruct (String.eqb_spec str lit)
         | H : context [String.eqb str ?lit] |- _ => destruct (String.eqb_spec str lit)
         end.

Ltac solve_contract fs fa :=
  split; [reflexivity | split];
  [ intros str v; split;
    [ cbn; unfold fs, fa; intro Hp; eqb_cases str; subst; inversion Hp; subst; reflexivity
    | intro Hs; subst; destruct v; reflexivity ]
  | intros str Hnone; cbn; unfold fs; eqb_cases str; subst;
    solve [ reflexivity
          | exfalso; eapply Hnone with (v := ltac:(constructor)); reflexivity
          | match goal with
            | |- context [Ok ?v] => exfalso; apply (Hnone v); reflexivity
            end ] ].

Lemma ExploitCodeMaturity_contract :
  parse_contract Temporal.ExploitCodeMaturity MetricType.E.
Proof.
  solve_contract Temporal.ExploitCodeMaturity_from_str Temporal.ExploitCodeMaturity_as_str.
Qed.

Lemma AvailabilityRequirement_contract :
  parse_contract EnvReq.AvailabilityRequirement MetricType.AR.
Proof.
  solve_contract EnvReq.AvailabilityRequirement_from_str EnvReq.AvailabilityRequirement_as_str.
Qed.

Lemma AttackComplexity_contract : parse_contract V4.AttackComplexity MetricType.AC.
Proof. solve_contract V4.AttackComplexity_from_str V4.AttackComplexity_as_str. Qed.

Lemma AttackVector_contract : parse_contract V4.AttackVector MetricType.AV.
Proof. solve_contract V4.AttackVector_from_str V4.AttackVector_as_str. Qed.

(** Claim C6. For each metric value type of the source (Exploit Code
    Maturity, Availability Requirement, v4.0 Attack Complexity and Attack
    Vector), [parse(letter)] succeeds exactly on the type's canonical codes,
    returning the variant whose code it is (so [parse(as_str(v)) = Ok(v)]),
    and returns [InvalidMetric{kind, value}] with the type's kind and the
    input on any other string. *)
Theorem parse_letter_contract :
  parse_contract Temporal.ExploitCodeMaturity MetricType.E
  /\ parse_contract EnvReq.AvailabilityRequirement MetricType.AR
  /\ parse_contract V4.AttackComplexity MetricType.AC
  /\ parse_contract V4.AttackVector MetricType.AV.
Proof.
  exact (conj ExploitCodeMaturity_contract
           (conj AvailabilityRequirement_contract
              (conj AttackComplexity_contract AttackVector_contract))).
Qed.

(** Claim C3, counterexample. The derived order of Exploit Code Maturity
    puts High before Functional although High weighs 1.0 and Functional
    0.97: the order is not by weight. *)
Lemma order_not_by_weight :
  derived_lt Temporal.High Temporal.Functional
  /\ score Temporal.Functional < score Temporal.High
  /\ ~ (forall x y : Temporal.ExploitCodeMaturity, derived_lt x y -> score x <= score y).
Proof.
  assert (Hlt : derived_lt Temporal.High Temporal.Functional)
    by (unfold derived_lt; cbn; lia).
  assert (Hw : score Temporal.Functional < score Temporal.High) by reflexivity.
  split; [exact Hlt | split; [exact Hw |]].
  intro Hall. specialize (Hall _ _ Hlt).
  apply (Qlt_not_le _ _ Hw). exact Hall.
Qed.

Ltac order_cases :=
  intros x y Hxy; destruct x, y; unfold derived_lt in Hxy; cbn in Hxy;
  try lia; reflexivity.

(** Claim C3, as amended. Every metric value type is ordered by the
    declaration order of its variants (the derived [Ord]). For v4.0 Attack
    Vector (Physical < Local < Adjacent < Network) and Attack Complexity
    (High < Low) that order is strictly increasing in weight; for Exploit
    Code Maturity it is non-increasing in weight; for Availability
    Requirement it is neither. *)
Theorem derived_order_vs_weight :
  (forall x y : V4.AttackVector, derived_lt x y -> score x < score y)
  /\ derived_lt V4.Physical V4.Local /\ derived_lt V4.Local V4.Adjacent
  /\ derived_lt V4.Adjacent V4.Network
  /\ (forall x y : V4.AttackComplexity, derived_lt x y -> score x < score y)
  /\ (forall x y : Temporal.ExploitCodeMaturity, derived_lt x y -> score y <= score x)
  /\ (derived_lt EnvReq.NotDefined EnvReq.High
      /\ score EnvReq.NotDefined < score EnvReq.High)
  /\ (derived_lt EnvReq.High EnvReq.Medium
      /\ score EnvReq.Medium < score EnvReq.High).
Proof.
  repeat split; try (unfold derived_lt; cbn; lia); try reflexivity.
  - order_cases.
  - order_cases.
  - intros x y Hxy; destruct x, y; unfold derived_lt in Hxy; cbn in Hxy;
      try lia; discriminate.
Qed.

(** Claim C7. The Not Defined level of Exploit Code Maturity is its
    default and weighs 1.0, as much as High; the weight table is X=1.0,
    H=1.0, F=0.97, P=0.94, U=0.91; an absent E gives the same Temporal
    score as E:H and, with RL and RC absent too, leaves the rounded Base
    score unchanged. *)
Theorem exploit_code_maturity_weights :
  Temporal.ExploitCodeMaturity_default = Temporal.NotDefined
  /\ score Temporal.NotDefined = 1
  /\ score Temporal.NotDefined = score Temporal.High
  /\ score Temporal.Functional = 97 # 100
  /\ score Temporal.ProofOfConcept = 94 # 100
  /\ score Temporal.Unproven = 91 # 100
  /\ (forall base rl rc,
        SpecSide.temporal_score base None rl rc
        = SpecSide.temporal_score base (Some Temporal.High) rl rc)
  /\ (forall base, SpecSide.temporal_score base None None None = Env.roundup base).
Proof.
  repeat split; try reflexivity.
  intro base. unfold SpecSide.temporal_score, Env.roundup. cbn.
  rewrite (Qceiling_comp (base * 1 * 1 * 1 * 100000) (base * 100000)) by ring.
  reflexivity.
Qed.

End ValueProps.

(** ** Score rounding *)
Module RoundProps.
Import Env.

Lemma roundup_on_tenths (z : Z) : roundup (inject_Z z / 10) = inject_Z z / 10.
Proof.
  unfold roundup.
  rewrite (Qceiling_comp (inject_Z z / 10 * 100000) (inject_Z (z * 10000)))
    by (rewrite inject_Z_mult; field).
  rewrite Qceiling_Z.
  rewrite (Qceiling_comp (inject_Z (z * 10000) / 10000) (inject_Z z))
    by (rewrite inject_Z_mult; field).
  rewrite Qceiling_Z. reflexivity.
Qed.

(** Claim C8. The score rounding is idempotent and never rounds down:
    for every [x], [roundup (roundup x) = roundup x] and
    [x <= roundup x] (in particular on [[0, 10]]). *)
Theorem roundup_idempotent_up :
  forall x : Q, roundup (roundup x) = roundup x /\ x <= roundup x.
Proof.
  intro x. split.
  - unfold roundup at 2. apply roundup_on_tenths.
  - unfold roundup.
    pose proof (Qle_ceiling (x * 100000)) as H1.
    pose proof (Qle_ceiling (inject_Z (Qceiling (x * 100000)) / 10000)) as H2.
    set (c1 := inject_Z (Qceiling (x * 100000))) in *.
    set (z := inject_Z (Qceiling (c1 / 10000))) in *.
    unfold Qdiv in *.
    change (/ 10000) with (1 # 10000) in *. change (/ 10) with (1 # 10).
    lra.
Qed.

End RoundProps.

(** ** Environmental scoring *)
Module ScoreProps.
Import Env.

Lemma roundup_zero : roundup 0 == 0.
Proof. reflexivity. Qed.

Lemma roundup_le_10 (y : Q) : y <= 10 -> roundup y <= 10.
Proof.
  intro Hy. unfold roundup.
  assert (H1 : (Qceiling (y * 100000) <= 1000000)%Z).
  { rewrite <- (Qceiling_Z 1000000). apply Qceiling_resp_le.
    unfold inject_Z. lra. }
  set (c1 := Qceiling (y * 100000)) in *.
  assert (H2 : (Qceiling (inject_Z c1 / 10000) <= 100)%Z).
  { rewrite <- (Qceiling_Z 100). apply Qceiling_resp_le.
    rewrite Zle_Qle in H1. set (q1 := inject_Z c1) in *. unfold inject_Z in *.
    unfold Qdiv. change (/ 10000) with (1 # 10000). lra. }
  set (c2 := Qceiling (inject_Z c1 / 10000)) in *.
  rewrite Zle_Qle in H2. set (q2 := inject_Z c2) in *. unfold inject_Z in H2.
  unfold Qdiv. change (/ 10) with (1 # 10). lra.
Qed.

(** Claim C4. When the scope-adjusted impact is [<= 0], [score()] is
    exactly 0.0 whatever the exploitability; otherwise it is the rounding
    of the combined value, which is first clamped by [min] with 10.0 (with
    the 1.08 factor when the scope changed), so the score is at most 10. *)
Theorem score_zero_or_clamped :
  forall m : Environmental,
  (iss_scoped m <= 0 -> value (Environmental_score m) == 0)
  /\ (0 < iss_scoped m ->
      value (Environmental_score m)
      = roundup (if is_scope_changed m
                 then Qmin ((108 # 100) * (iss_scoped m + value (exploitability m))) 10
                 else Qmin (iss_scoped m + value (exploitability m)) 10)
      /\ value (Environmental_score m) <= 10).
Proof.
  intro m. split.
  - intro Hle. unfold Environmental_score.
    apply Qle_bool_iff in Hle. rewrite Hle. apply roundup_zero.
  - intro Hlt.
    assert (Hb : Qle_bool (iss_scoped m) 0 = false).
    { destruct (Qle_bool (iss_scoped m) 0) eqn:Hq; [|reflexivity].
      apply Qle_bool_iff in Hq. exfalso. apply (Qlt_not_le _ _ Hlt Hq). }
    unfold Environmental_score. cbn [value Score_roundup]. rewrite Hb.
    destruct (is_scope_changed m); cbn [negb]; split; try reflexivity;
      apply roundup_le_10; apply Q.le_min_r.
Qed.

(** Claim C2. [Environmental::impact] reads the aggregate's C, I and A
    values and nothing else: two aggregates that agree on C, I and A have
    the same impact, whatever their requirements. With C:H alone the impact
    is 0.56, while the modified-ISS formula with CR:H (1.5) gives 0.84 and
    with CR:L (0.5) gives 0.28, so no function of C/I/A alone can follow it. *)
Theorem impact_ignores_requirements :
  (forall m m' : Environmental,
     m.(c) = m'.(c) -> m.(i) = m'.(i) -> m.(a) = m'.(a) -> impact m = impact m')
  /\ value (impact (set_c (Some V3.Imp_High) Environmental_default)) == 56 # 100
  /\ SpecSide.spec_modified_iss (56 # 100) 0 0 (score EnvReq.High) 1 1 == 84 # 100
  /\ SpecSide.spec_modified_iss (56 # 100) 0 0 (score EnvReq.Low) 1 1 == 28 # 100.
Proof.
  split; [| split; [reflexivity | split; reflexivity]].
  intros m m' Hc Hi Ha. unfold impact. now rewrite Hc, Hi, Ha.
Qed.

End ScoreProps.

(** ** The vector-string parser *)
Module ParseProps.
Import Env EnvParse Shape.

(** *** Strings *)

Lemma append_assoc_str (x y z : string) : (x ++ y) ++ z = x ++ y ++ z.
Proof. induction x as [|ch rest IH]; cbn; [reflexivity | now rewrite IH]. Qed.

Lemma append_empty_str (x : string) : x ++ EmptyString = x.
Proof. induction x as [|ch rest IH]; cbn; [reflexivity | now rewrite IH]. Qed.

Lemma has_char_app (ch : ascii) (x y : string) :
  has_char ch (x ++ y) = has_char ch x || has_char ch y.
Proof.
  induction x as [|c0 rest IH]; cbn; [reflexivity|].
  rewrite IH. apply orb_assoc.
Qed.

Lemma split_on_clean (sep : ascii) (str : string) :
  has_char sep str = false -> split_on sep str = [str].
Proof.
  induction str as [|ch rest IH]; cbn; [reflexivity|].
  intro H. apply orb_false_iff in H as [H1 H2].
  rewrite H1, (IH H2). reflexivity.
Qed.

Lemma split_on_app (sep : ascii) (x y : string) :
  has_char sep x = false -> split_on sep (x ++ String sep y) = x :: split_on sep y.
Proof.
  induction x as [|ch rest IH]; cbn; intro H.
  - rewrite Ascii.eqb_refl. reflexivity.
  - apply orb_false_iff in H as [H1 H2].
    rewrite H1, (IH H2). reflexivity.
Qed.

Lemma split_on_nonempty (sep : ascii) (str : string) : split_on sep str <> [].
Proof.
  destruct str as [|ch rest]; cbn; [discriminate|].
  destruct (Ascii.eqb ch sep); [discriminate|].
  destruct (split_on sep rest); discriminate.
Qed.

Lemma length_split_on (sep : ascii) (str : string) :
  length (split_on sep str) = S (count_char sep str).
Proof.
  induction str as [|ch rest IH]; cbn; [reflexivity|].
  destruct (Ascii.eqb ch sep); cbn.
  - rewrite IH. reflexivity.
  - destruct (split_on sep rest) eqn:Hs; cbn in *; [discriminate | exact IH].
Qed.

(** *** Components *)

Lemma parse_component_one_colon (comp : string) :
  count_char ":" comp = 1%nat -> exists id value, parse_component comp = Ok (id, value).
Proof.
  intro H. unfold parse_component.
  pose proof (length_split_on ":" comp) as Hl. rewrite H in Hl.
  destruct (split_on ":" comp) as [|x [|y [|z rest]]]; cbn in Hl; try discriminate.
  eauto.
Qed.

Lemma parse_component_bad (comp : string) :
  count_char ":" comp <> 1%nat -> parse_component comp = Err (InvalidComponent comp).
Proof.
  intro H. unfold parse_component.
  pose proof (length_split_on ":" comp) as Hl.
  destruct (split_on ":" comp) as [|x [|y [|z rest]]]; cbn in Hl; try reflexivity.
  exfalso. apply H. lia.
Qed.

Lemma parse_component_pair (id value : string) :
  has_char ":" id = false -> has_char ":" value = false ->
  parse_component (id ++ ":" ++ value) = Ok (id, value).
Proof.
  intros Hid Hv. unfold parse_component.
  change (":" ++ value) with (String ":" value).
  rewrite (split_on_app ":" id value Hid), (split_on_clean ":" value Hv).
  reflexivity.
Qed.

Lemma collect_first_bad (l : list string) :
  (exists comp, In comp l /\ count_char ":" comp <> 1%nat) ->
  exists good bad rest,
    l = (good ++ bad :: rest)%list
    /\ Forall (fun w => count_char ":" w = 1%nat) good
    /\ count_char ":" bad <> 1%nat
    /\ collect (map parse_component l) = Err (InvalidComponent bad).
Proof.
  induction l as [|x rest IH]; intros [comp [Hin Hc]]; [destruct Hin|].
  destruct (Nat.eq_dec (count_char ":" x) 1) as [Hx|Hx].
  - destruct (parse_component_one_colon x Hx) as [id [value Hp]].
    destruct Hin as [Heq|Hin]; [subst; contradiction|].
    destruct IH as [good [bad [post [Hl [Hg [Hb Hcol]]]]]]; [eauto|].
    exists (x :: good), bad, post.
    split; [cbn; now rewrite Hl|].
    split; [constructor; assumption|].
    split; [exact Hb|].
    cbn. rewrite Hp. cbn. rewrite Hcol. reflexivity.
  - exists [], x, rest. split; [reflexivity|]. split; [constructor|].
    split; [exact Hx|].
    cbn. rewrite (parse_component_bad x Hx). reflexivity.
Qed.

Definition piece (c : string * string) : string := fst c ++ ":" ++ snd c.

Lemma split_render_components (x : string) (cs : list (string * string)) :
  has_char "/" x = false -> clean_components cs = true ->
  split_on "/" (x ++ render_components cs) = x :: map piece cs.
Proof.
  revert x. induction cs as [|[id value] rest IH]; intros x Hx Hcs; cbn.
  - rewrite append_empty_str. apply split_on_clean, Hx.
  - cbn in Hcs. apply andb_true_iff in Hcs as [Hiv Hrest].
    apply andb_true_iff in Hiv as [Hid Hv].
    unfold clean in Hid, Hv.
    apply andb_true_iff in Hid as [Hid1 Hid2]. apply andb_true_iff in Hv as [Hv1 Hv2].
    apply negb_true_iff in Hid1, Hid2, Hv1, Hv2.
    change ("/" ++ id ++ ":" ++ value ++ render_components rest)
      with (String "/" (id ++ ":" ++ value ++ render_components rest)).
    rewrite (split_on_app "/" x _ Hx). f_equal.
    transitivity (split_on "/" ((id ++ ":" ++ value) ++ render_components rest)).
    + rewrite !append_assoc_str. reflexivity.
    + apply IH; [| exact Hrest].
      rewrite has_char_app, Hid1. cbn. exact Hv1.
Qed.

Lemma collect_pieces (cs : list (string * string)) :
  clean_components cs = true -> collect (map parse_component (map piece cs)) = Ok cs.
Proof.
  induction cs as [|[id value] rest IH]; intro Hcs; [reflexivity|].
  cbn [map]. cbn in Hcs.
  apply andb_true_iff in Hcs as [Hiv Hrest].
  apply andb_true_iff in Hiv as [Hid Hv].
  unfold clean in Hid, Hv.
  apply andb_true_iff in Hid as [_ Hid]. apply andb_true_iff in Hv as [_ Hv].
  apply negb_true_iff in Hid, Hv.
  unfold piece at 1. cbn [fst snd].
  rewrite (parse_component_pair id value Hid Hv). cbn [collect bind].
  rewrite (IH Hrest). reflexivity.
Qed.

(** [from_str] on a rendered vector string whose pieces hold no separator:
    the prefix check, the version check, then the metric loop. *)
Lemma from_str_render (p v : string) (cs : list (string * string)) :
  clean p = true -> clean v = true -> clean_components cs = true ->
  from_str (render p v cs)
  = if negb (String.eqb p PREFIX) then Err (InvalidPrefix p)
    else match minor_version_of v with
         | None => Err (UnsupportedVersion v)
         | Some minor =>
             parse_metrics cs
               (mkEnvironmental minor None None None None None None None None
                  None None None None None None)
         end.
Proof.
  intros Hp Hv Hcs. unfold from_str, render.
  unfold clean in Hp, Hv.
  apply andb_true_iff in Hp as [Hp1 Hp2]. apply andb_true_iff in Hv as [Hv1 Hv2].
  apply negb_true_iff in Hp1, Hp2, Hv1, Hv2.
  replace (p ++ ":" ++ v ++ render_components cs)
    with ((p ++ ":" ++ v) ++ render_components cs)
    by (rewrite !append_assoc_str; reflexivity).
  rewrite split_render_components; [| rewrite has_char_app, Hp1; cbn; exact Hv1 | exact Hcs].
  cbn [map]. rewrite (parse_component_pair p v Hp2 Hv2). cbn [collect bind].
  rewrite (collect_pieces cs Hcs). reflexivity.
Qed.

(** *** The metric loop *)

Ltac split_results :=
  repeat match goal with
         | |- context [match ?r with Ok _ => _ | Err _ => _ end] => destruct r
         | H : context [match ?r with Ok _ => _ | Err _ => _ end] |- _ => destruct r
         end.

Lemma set_metric_err_indep (k : MetricType) (value : string) (m m' : Environmental) (e : Error) :
  set_metric k value m = Err e -> set_metric k value m' = Err e.
Proof.
  destruct k; unfold set_metric, bind; split_results; intro H;
    solve [exact H | discriminate].
Qed.

Lemma set_metric_ok_indep (k : MetricType) (value : string) (m m' m1 : Environmental) :
  set_metric k value m = Ok m1 -> exists m2, set_metric k value m' = Ok m2.
Proof.
  intro H. destruct (set_metric k value m') as [m2|e] eqn:He; [eauto|].
  apply (set_metric_err_indep _ _ _ m) in He. congruence.
Qed.

(** A later assignment to the same field replaces an earlier one. *)
Lemma set_metric_overwrite (k : MetricType) (v1 v2 : string) (m m1 : Environmental) :
  set_metric k v1 m = Ok m1 -> set_metric k v2 m1 = set_metric k v2 m.
Proof.
  destruct k; unfold set_metric, bind; split_results; intro H;
    try discriminate; injection H as <-; reflexivity.
Qed.

(** Assignments to different fields commute. *)
Lemma set_metric_commute (k k' : MetricType) (v v' : string) (m m1 m2 : Environmental) :
  k <> k' -> set_metric k v m = Ok m1 -> set_metric k' v' m = Ok m2 ->
  exists m12, set_metric k' v' m1 = Ok m12 /\ set_metric k v m2 = Ok m12.
Proof.
  intro Hk.
  destruct k, k'; try (exfalso; apply Hk; reflexivity);
    unfold set_metric, bind; split_results; intros H1 H2;
    try discriminate; injection H1 as <-; injection H2 as <-;
    eexists; split; reflexivity.
Qed.

Lemma parse_metrics_app (l1 l2 : list (string * string)) (m : Environmental) :
  parse_metrics (l1 ++ l2) m = bind (parse_metrics l1 m) (parse_metrics l2).
Proof.
  revert m. induction l1 as [|[id value] rest IH]; intro m; [reflexivity|].
  cbn [app parse_metrics].
  destruct (MetricType_from_str (to_ascii_uppercase id)) as [k|e]; cbn [bind]; [|reflexivity].
  destruct (set_metric k (to_ascii_uppercase value) m) as [m'|e]; cbn [bind]; [|reflexivity].
  apply IH.
Qed.

(** An earlier component of kind [k] has no effect once a later component
    of the same kind is reached. *)
Lemma parse_metrics_drop_earlier (k : MetricType) (v1 id2 v2 : string)
    (post mid : list (string * string)) (m m1 : Environmental) :
  MetricType_from_str (to_ascii_uppercase id2) = Ok k ->
  set_metric k v1 m = Ok m1 ->
  parse_metrics (mid ++ (id2, v2) :: post) m1 = parse_metrics (mid ++ (id2, v2) :: post) m.
Proof.
  intro Hid2. revert m m1.
  induction mid as [|[id value] rest IH]; intros m m1 H1; cbn [app parse_metrics].
  - rewrite Hid2. cbn [bind]. rewrite (set_metric_overwrite _ _ _ _ _ H1). reflexivity.
  - destruct (MetricType_from_str (to_ascii_uppercase id)) as [k'|e]; cbn [bind]; [|reflexivity].
    destruct (set_metric k' (to_ascii_uppercase value) m) as [m2|e] eqn:Hm2.
    + destruct (MetricType_eq_dec k k') as [<-|Hne].
      * rewrite (set_metric_overwrite _ _ _ _ _ H1), Hm2. reflexivity.
      * destruct (set_metric_commute _ _ _ _ _ _ _ Hne H1 Hm2) as [m12 [Ha Hb]].
        rewrite Ha. cbn [bind]. apply (IH m2 m12 Hb).
    + rewrite (set_metric_err_indep _ _ _ m1 _ Hm2). reflexivity.
Qed.

Lemma MetricType_from_str_unknown (str : string) :
  (forall k, MetricType_name k <> str) -> MetricType_from_str str = Err (UnknownMetric str).
Proof.
  intro H. unfold MetricType_from_str.
  repeat match goal with
         | |- context [String.eqb str ?lit] => destruct (String.eqb_spec str lit)
         end;
    try reflexivity;
    match goal with
    | Hs : str = _ |- context [Ok ?k] => exfalso; apply (H k); subst; reflexivity
    | Hs : str = "RC" |- _ => exfalso; apply (H MetricType.RC); subst; reflexivity
    end.
Qed.

Lemma clean_components_app (l1 l2 : list (string * string)) :
  clean_components (l1 ++ l2) = clean_components l1 && clean_components l2.
Proof. unfold clean_components. apply forallb_app. Qed.

(** *** Case folding *)

Lemma ascii_upper_lower (ch : ascii) : ascii_to_upper (ascii_to_lower ch) = ascii_to_upper ch.
Proof. destruct ch as [[] [] [] [] [] [] [] []]; reflexivity. Qed.

Lemma ascii_lower_sep (ch : ascii) :
  Ascii.eqb (ascii_to_lower ch) "/" = Ascii.eqb ch "/"
  /\ Ascii.eqb (ascii_to_lower ch) ":" = Ascii.eqb ch ":".
Proof. destruct ch as [[] [] [] [] [] [] [] []]; split; reflexivity. Qed.

Lemma upper_lower (str : string) :
  to_ascii_uppercase (to_ascii_lowercase str) = to_ascii_uppercase str.
Proof.
  induction str as [|ch rest IH]; cbn; [reflexivity|].
  rewrite ascii_upper_lower, IH. reflexivity.
Qed.

Lemma has_char_lower (str : string) :
  has_char "/" (to_ascii_lowercase str) = has_char "/" str
  /\ has_char ":" (to_ascii_lowercase str) = has_char ":" str.
Proof.
  induction str as [|ch rest [IH1 IH2]]; cbn; [split; reflexivity|].
  destruct (ascii_lower_sep ch) as [H1 H2]. rewrite H1, H2, IH1, IH2. split; reflexivity.
Qed.

Lemma clean_lower (str : string) : clean (to_ascii_lowercase str) = clean str.
Proof.
  unfold clean. destruct (has_char_lower str) as [H1 H2]. rewrite H1, H2. reflexivity.
Qed.

Lemma clean_components_lower (cs : list (string * string)) :
  clean_components (map lower_component cs) = clean_components cs.
Proof.
  induction cs as [|[id value] rest IH]; [reflexivity|].
  cbn. rewrite !clean_lower. f_equal. exact IH.
Qed.

Lemma parse_metrics_lower (cs : list (string * string)) (m : Environmental) :
  parse_metrics (map lower_component cs) m = parse_metrics cs m.
Proof.
  revert m. induction cs as [|[id value] rest IH]; intro m; [reflexivity|].
  cbn [map parse_metrics lower_component fst snd].
  rewrite !upper_lower.
  destruct (MetricType_from_str (to_ascii_uppercase id)) as [k|e]; cbn [bind]; [|reflexivity].
  destruct (set_metric k (to_ascii_uppercase value) m) as [m'|e]; cbn [bind]; [|reflexivity].
  apply IH.
Qed.

(** *** Claims about [from_str] *)

(** Claim C5. [from_str] never succeeds on malformed input, and each
    malformation gives its own error: a component without exactly one
    [':'] gives [InvalidComponent], naming the first such component (all
    components are split before anything else is looked at); with every
    piece well formed, a first component whose id is not [PREFIX] gives
    [InvalidPrefix]; with the prefix right, a version other than
    ["3.0"]/["3.1"] gives [UnsupportedVersion]; and with prefix and version
    right and every component before it parsing, an acronym that is not in
    the registry after upper-casing gives [UnknownMetric]. *)
Theorem from_str_rejects_malformed :
  (forall str comp,
     In comp (split_on "/" str) -> count_char ":" comp <> 1%nat ->
     exists good bad rest,
       split_on "/" str = (good ++ bad :: rest)%list
       /\ Forall (fun w => count_char ":" w = 1%nat) good
       /\ count_char ":" bad <> 1%nat
       /\ from_str str = Err (InvalidComponent bad))
  /\ (forall p v cs,
        clean p = true -> clean v = true -> clean_components cs = true -> p <> PREFIX ->
        from_str (render p v cs) = Err (InvalidPrefix p))
  /\ (forall v cs,
        clean v = true -> clean_components cs = true -> v <> "3.0" -> v <> "3.1" ->
        from_str (render PREFIX v cs) = Err (UnsupportedVersion v))
  /\ (forall v pre id value post m0,
        clean v = true -> clean_components (pre ++ (id, value) :: post) = true ->
        (forall k, MetricType_name k <> to_ascii_uppercase id) ->
        from_str (render PREFIX v pre) = Ok m0 ->
        from_str (render PREFIX v (pre ++ (id, value) :: post))
        = Err (UnknownMetric (to_ascii_uppercase id))).
Proof.
  split; [| split; [| split]].
  - intros str comp Hin Hc.
    destruct (collect_first_bad (split_on "/" str)) as [good [bad [rest [Hl [Hg [Hb Hcol]]]]]];
      [eauto|].
    exists good, bad, rest. do 3 (split; [assumption|]).
    unfold from_str. rewrite Hcol. reflexivity.
  - intros p v cs Hp Hv Hcs Hne.
    rewrite (from_str_render p v cs Hp Hv Hcs).
    destruct (String.eqb_spec p PREFIX) as [Heq|_]; [contradiction | reflexivity].
  - intros v cs Hv Hcs H30 H31.
    rewrite (from_str_render PREFIX v cs eq_refl Hv Hcs), String.eqb_refl. cbn [negb].
    unfold minor_version_of.
    destruct (String.eqb_spec v "3.0"); [contradiction|].
    destruct (String.eqb_spec v "3.1"); [contradiction|].
    reflexivity.
  - intros v pre id value post m0 Hv Hcs Hunk Hpre.
    rewrite clean_components_app in Hcs. apply andb_true_iff in Hcs as [Hcpre Hcpost].
    rewrite (from_str_render PREFIX v pre eq_refl Hv Hcpre) in Hpre.
    rewrite (from_str_render PREFIX v _ eq_refl Hv); [| rewrite clean_components_app, Hcpre; exact Hcpost].
    rewrite String.eqb_refl in Hpre |- *. cbn [negb] in Hpre |- *.
    destruct (minor_version_of v) as [minor|]; [|discriminate].
    rewrite parse_metrics_app, Hpre. cbn [bind parse_metrics].
    rewrite (MetricType_from_str_unknown _ Hunk). reflexivity.
Qed.

(** Claim C9. Duplicated metric components are not rejected: when a
    component is followed later by another of the same metric kind, the
    earlier one is valid and the pieces hold no separator, the string
    parses exactly as the string without the earlier occurrence; so an
    otherwise-valid string with a duplicate parses, keeping the value of
    the last occurrence. *)
Theorem from_str_duplicate_last_wins :
  forall (p v : string) (pre mid post : list (string * string))
         (id1 v1 id2 v2 : string) (k : MetricType) (m1 : Environmental),
  clean p = true -> clean v = true ->
  clean_components (pre ++ (id1, v1) :: mid ++ (id2, v2) :: post) = true ->
  MetricType_from_str (to_ascii_uppercase id1) = Ok k ->
  MetricType_from_str (to_ascii_uppercase id2) = Ok k ->
  from_str (render PREFIX "3.1" [(id1, v1)]) = Ok m1 ->
  from_str (render p v (pre ++ (id1, v1) :: mid ++ (id2, v2) :: post))
  = from_str (render p v (pre ++ mid ++ (id2, v2) :: post)).
Proof.
  intros p v pre mid post id1 v1 id2 v2 k m1 Hp Hv Hcs Hk1 Hk2 Hone.
  assert (Hc1 : clean_components [(id1, v1)] = true).
  { rewrite clean_components_app in Hcs. apply andb_true_iff in Hcs as [_ Hcs].
    cbn in Hcs |- *. apply andb_true_iff in Hcs as [Hcs _]. rewrite Hcs. reflexivity. }
  rewrite (from_str_render PREFIX "3.1" _ eq_refl eq_refl Hc1) in Hone.
  rewrite String.eqb_refl in Hone.
  change (minor_version_of "3.1") with (Some 1%nat) in Hone.
  cbn [negb parse_metrics] in Hone.
  rewrite Hk1 in Hone. cbn [bind] in Hone.
  destruct (set_metric k (to_ascii_uppercase v1) _) as [m1'|e] eqn:Hset; [|discriminate].
  assert (Hcs' : clean_components (pre ++ mid ++ (id2, v2) :: post) = true).
  { rewrite clean_components_app in Hcs |- *. apply andb_true_iff in Hcs as [Ha Hb].
    rewrite Ha. cbn in Hb |- *. apply andb_true_iff in Hb as [_ Hb]. exact Hb. }
  rewrite (from_str_render p v _ Hp Hv Hcs), (from_str_render p v _ Hp Hv Hcs').
  destruct (negb (String.eqb p PREFIX)); [reflexivity|].
  destruct (minor_version_of v) as [minor|]; [|reflexivity].
  rewrite !parse_metrics_app.
  destruct (parse_metrics pre _) as [m0|e]; cbn [bind]; [|reflexivity].
  cbn [parse_metrics]. rewrite Hk1. cbn [bind].
  destruct (set_metric_ok_indep _ _ _ m0 _ Hset) as [m2 Hm2].
  rewrite Hm2. cbn [bind].
  apply (parse_metrics_drop_earlier k (to_ascii_uppercase v1) id2 v2 post mid m0 m2 Hk2 Hm2).
Qed.

(** Claim C10. Metric ids and values are upper-cased before lookup, so
    writing the metric components in lower case gives the same result as
    their upper-case forms; the prefix is compared as written, so a
    lower-case ["cvss"] prefix is rejected with [InvalidPrefix]. *)
Theorem from_str_case_folding :
  (forall v cs,
     clean v = true -> clean_components cs = true ->
     from_str (render PREFIX v (map lower_component cs)) = from_str (render PREFIX v cs))
  /\ (forall v cs,
        clean v = true -> clean_components cs = true ->
        from_str (render (to_ascii_lowercase PREFIX) v cs)
        = Err (InvalidPrefix (to_ascii_lowercase PREFIX))).
Proof.
  split.
  - intros v cs Hv Hcs.
    assert (Hl : clean_components (map lower_component cs) = true)
      by (rewrite clean_components_lower; exact Hcs).
    rewrite (from_str_render PREFIX v _ eq_refl Hv Hl), (from_str_render PREFIX v _ eq_refl Hv Hcs).
    destruct (negb _); [reflexivity|].
    destruct (minor_version_of v); [apply parse_metrics_lower | reflexivity].
  - intros v cs Hv Hcs.
    rewrite (from_str_render (to_ascii_lowercase PREFIX) v cs eq_refl Hv Hcs). reflexivity.
Qed.

End ParseProps.

(** * Further properties of the source *)

Module RegistryExtra.

(** [MetricType::from_str] accepts exactly the fourteen acronyms, case
    sensitively: it returns [k] for [name(k)] for every kind but RC, returns
    [RL] for ["RC"], never returns [RC], and returns [UnknownMetric] carrying
    the input for any other string. *)
Theorem MetricType_from_str_exact :
  forall s : string,
  (forall k, MetricType_from_str s = Ok k
             <-> (s = MetricType_name k /\ k <> MetricType.RC)
                 \/ (s = "RC" /\ k = MetricType.RL))
  /\ MetricType_from_str s <> Ok MetricType.RC
  /\ ((forall k, MetricType_name k <> s) -> MetricType_from_str s = Err (UnknownMetric s)).
Proof.
  intro s.
  assert (Hiff : forall k, MetricType_from_str s = Ok k
             <-> (s = MetricType_name k /\ k <> MetricType.RC)
                 \/ (s = "RC" /\ k = MetricType.RL)).
  { intro k. split.
    - unfold MetricType_from_str.
      repeat match goal with
             | |- context [String.eqb s ?lit] =>
                 let E := fresh "E" in
                 destruct (String.eqb s lit) eqn:E; [apply String.eqb_eq in E|]
             end;
      intro H; try discriminate H; injection H as <-;
      first [ left; split; [assumption | discriminate]
            | right; split; [assumption | reflexivity] ].
    - intros [[-> Hk] | [-> ->]]; [| reflexivity].
      destruct k; try reflexivity. exfalso. apply Hk. reflexivity. }
  split; [exact Hiff | split].
  - intro H. apply Hiff in H as [[_ H] | [_ H]]; [apply H; reflexivity | discriminate].
  - apply ParseProps.MetricType_from_str_unknown.
Qed.

End RegistryExtra.

Module DisplayProps.
Import Env EnvParse Shape EnvDisplay ParseProps.

Lemma render_components_app (l1 l2 : list (string * string)) :
  render_components (l1 ++ l2) = render_components l1 ++ render_components l2.
Proof.
  induction l1 as [|[id value] rest IH]; cbn [app render_components]; [reflexivity|].
  rewrite IH, !append_assoc_str. reflexivity.
Qed.

Lemma write_metric_render {T : Type} (k : MetricType) (f : T -> string) (o : option T) :
  write_metric k f o = render_components (opt_component k f o).
Proof.
  destruct o as [v|]; cbn [write_metric opt_component render_components]; [|reflexivity].
  rewrite append_empty_str. reflexivity.
Qed.

Lemma display_render (m : Environmental) :
  Environmental_display m
  = render PREFIX ("3." ++ usize_display m.(minor_version)) (display_components m).
Proof.
  unfold Environmental_display, render, display_components.
  rewrite !render_components_app, !write_metric_render.
  reflexivity.
Qed.

Lemma has_char_uint (ch : ascii) (d : Decimal.uint) :
  Ascii.eqb ch "/" = true \/ Ascii.eqb ch ":" = true -> has_char ch (uint_to_string d) = false.
Proof.
  intro Hch.
  induction d; cbn [uint_to_string has_char]; try reflexivity;
    rewrite IHd, orb_false_r;
    destruct Hch as [Hch|Hch]; apply Ascii.eqb_eq in Hch; subst; reflexivity.
Qed.

Lemma clean_version (n : nat) : clean ("3." ++ usize_display n) = true.
Proof.
  unfold clean, usize_display. rewrite !has_char_app.
  rewrite !has_char_uint by (cbn; auto). reflexivity.
Qed.

Lemma name_clean (k : MetricType) : clean (MetricType_name k) = true.
Proof. destruct k; reflexivity. Qed.

Lemma opt_component_clean {T : Type} (k : MetricType) (f : T -> string) (o : option T) :
  (forall v, clean (f v) = true) -> clean_components (opt_component k f o) = true.
Proof.
  intro Hf. destruct o as [v|]; [|reflexivity].
  cbn. rewrite name_clean, Hf. reflexivity.
Qed.

Lemma display_components_clean (m : Environmental) :
  clean_components (display_components m) = true.
Proof.
  unfold display_components. rewrite !clean_components_app.
  rewrite !opt_component_clean; try reflexivity; intros []; reflexivity.
Qed.

Lemma uint_to_string_inj (d1 d2 : Decimal.uint) :
  uint_to_string d1 = uint_to_string d2 -> d1 = d2.
Proof.
  revert d2. induction d1; intros []; cbn; intro H;
    try discriminate; try reflexivity;
    injection H as H; f_equal; apply IHd1; exact H.
Qed.

Lemma usize_display_digit (n : nat) :
  (usize_display n = "0" -> n = 0%nat) /\ (usize_display n = "1" -> n = 1%nat).
Proof.
  unfold usize_display. split; intro H.
  - change "0" with (uint_to_string (Decimal.D0 Decimal.Nil)) in H.
    apply uint_to_string_inj in H.
    rewrite <- (Unsigned.of_to n), H. reflexivity.
  - change "1" with (uint_to_string (Decimal.D1 Decimal.Nil)) in H.
    apply uint_to_string_inj in H.
    rewrite <- (Unsigned.of_to n), H. reflexivity.
Qed.

Lemma minor_version_of_display (n : nat) :
  minor_version_of ("3." ++ usize_display n)
  = if (n <=? 1)%nat then Some n else None.
Proof.
  destruct n as [|[|n]]; [reflexivity | reflexivity|].
  cbn [Nat.leb]. unfold minor_version_of.
  destruct (String.eqb_spec ("3." ++ usize_display (S (S n))) "3.0") as [H|_].
  { injection H as H. apply usize_display_digit in H. discriminate. }
  destruct (String.eqb_spec ("3." ++ usize_display (S (S n))) "3.1") as [H|_].
  { injection H as H. apply usize_display_digit in H. discriminate. }
  reflexivity.
Qed.

Ltac opt_step := intros o x; destruct o as [v|]; [destruct v|]; reflexivity.

Lemma parse_opt_av : forall o x,
  parse_metrics (opt_component MetricType.AV AttackVector_as_str o) x
  = Ok (match o with Some _ => set_av o x | None => x end).
Proof. opt_step. Qed.
Lemma parse_opt_ac : forall o x,
  parse_metrics (opt_component MetricType.AC AttackComplexity_as_str o) x
  = Ok (match o with Some _ => set_ac o x | None => x end).
Proof. opt_step. Qed.
Lemma parse_opt_pr : forall o x,
  parse_metrics (opt_component MetricType.PR PrivilegesRequired_as_str o) x
  = Ok (match o with Some _ => set_pr o x | None => x end).
Proof. opt_step. Qed.
Lemma parse_opt_ui : forall o x,
  parse_metrics (opt_component MetricType.UI UserInteraction_as_str o) x
  = Ok (match o with Some _ => set_ui o x | None => x end).
Proof. opt_step. Qed.
Lemma parse_opt_s : forall o x,
  parse_metrics (opt_component MetricType.S Scope_as_str o) x
  = Ok (match o with Some _ => set_s o x | None => x end).
Proof. opt_step. Qed.
Lemma parse_opt_c : forall o x,
  parse_metrics (opt_component MetricType.C Impact_as_str o) x
  = Ok (match o with Some _ => set_c o x | None => x end).
Proof. opt_step. Qed.
Lemma parse_opt_i : forall o x,
  parse_metrics (opt_component MetricType.I Impact_as_str o) x
  = Ok (match o with Some _ => set_i o x | None => x end).
Proof. opt_step. Qed.
Lemma parse_opt_a : forall o x,
  parse_metrics (opt_component MetricType.A Impact_as_str o) x
  = Ok (match o with Some _ => set_a o x | None => x end).
Proof. opt_step. Qed.

Lemma parse_display_components (m : Environmental) :
  parse_metrics (display_components m)
    (mkEnvironmental m.(minor_version) None None None None None None None None
       None None None None None None)
  = Ok (displayed_fields m).
Proof.
  unfold display_components.
  rewrite parse_metrics_app, parse_opt_av. cbn [bind].
  rewrite parse_metrics_app, parse_opt_ac. cbn [bind].
  rewrite parse_metrics_app, parse_opt_pr. cbn [bind].
  rewrite parse_metrics_app, parse_opt_ui. cbn [bind].
  rewrite parse_metrics_app, parse_opt_s. cbn [bind].
  rewrite parse_metrics_app, parse_opt_c. cbn [bind].
  rewrite parse_metrics_app, parse_opt_i. cbn [bind].
  rewrite parse_opt_a.
  destruct m as [mv av0 ac0 pr0 ui0 s0 c0 i0 a0 e0 rl0 rc0 ar0 ir0 cr0]; cbn.
  destruct av0, ac0, pr0, ui0, s0, c0, i0, a0; reflexivity.
Qed.

Lemma from_str_display (m : Environmental) :
  from_str (Environmental_display m)
  = if (m.(minor_version) <=? 1)%nat then Ok (displayed_fields m)
    else Err (UnsupportedVersion ("3." ++ usize_display m.(minor_version))).
Proof.
  rewrite display_render, (from_str_render PREFIX _ _ eq_refl (clean_version _) (display_components_clean m)).
  rewrite String.eqb_refl. cbn [negb].
  rewrite minor_version_of_display.
  destruct (m.(minor_version) <=? 1)%nat; [apply parse_display_components | reflexivity].
Qed.

End DisplayProps.

Module ParseInv.
Import Env EnvParse Shape EnvDisplay ParseProps.

Lemma ascii_upper_idem (ch : ascii) : ascii_to_upper (ascii_to_upper ch) = ascii_to_upper ch.
Proof. destruct ch as [[] [] [] [] [] [] [] []]; reflexivity. Qed.

Lemma upper_idem (str : string) :
  to_ascii_uppercase (to_ascii_uppercase str) = to_ascii_uppercase str.
Proof.
  induction str as [|ch rest IH]; cbn; [reflexivity|].
  rewrite ascii_upper_idem, IH. reflexivity.
Qed.

Lemma MetricType_from_str_err (str : string) (e : Error) :
  MetricType_from_str str = Err e -> e = UnknownMetric str.
Proof.
  unfold MetricType_from_str.
  repeat match goal with
         | |- context [String.eqb str ?lit] => destruct (String.eqb str lit)
         end; intro H; try discriminate H; injection H as <-; reflexivity.
Qed.

Lemma set_metric_err (k : MetricType) (value : string) (m : Environmental) (e : Error) :
  set_metric k value m = Err e -> e = InvalidMetric k value.
Proof.
  destruct k; unfold set_metric, bind;
    unfold Temporal.ExploitCodeMaturity_from_str, V3.AttackVector_from_str,
      V3.AttackComplexity_from_str, V3.PrivilegesRequired_from_str,
      V3.UserInteraction_from_str, V3.Scope_from_str, V3.Impact_from_str,
      V3.RemediationLevel_from_str, V3.ReportConfidence_from_str,
      V3.Requirement_from_str, EnvReq.AvailabilityRequirement_from_str;
    repeat match goal with
           | |- context [String.eqb value ?lit] => destruct (String.eqb value lit)
           end; intro H; cbn in H; try discriminate H.
  all: congruence.
Qed.

Lemma set_metric_minor (k : MetricType) (value : string) (m m' : Environmental) :
  set_metric k value m = Ok m' -> m'.(minor_version) = m.(minor_version).
Proof.
  destruct k; unfold set_metric, bind; ParseProps.split_results; intro H;
    cbn in H; try discriminate H; inversion H; reflexivity.
Qed.

(** The errors of the metric loop: an unknown or a bad component, both
    reported upper-cased. *)
Lemma parse_metrics_err (cs : list (string * string)) (m : Environmental) (e : Error) :
  parse_metrics cs m = Err e ->
  (exists n, e = UnknownMetric n /\ to_ascii_uppercase n = n)
  \/ (exists k v, e = InvalidMetric k v /\ to_ascii_uppercase v = v).
Proof.
  revert m. induction cs as [|[id value] rest IH]; intros m H; cbn [parse_metrics] in H.
  - discriminate.
  - destruct (MetricType_from_str (to_ascii_uppercase id)) as [k|e1] eqn:Hk; cbn [bind] in H.
    + destruct (set_metric k (to_ascii_uppercase value) m) as [m'|e2] eqn:Hs; cbn [bind] in H.
      * exact (IH m' H).
      * injection H as <-. apply set_metric_err in Hs. right.
        exists k, (to_ascii_uppercase value). split; [exact Hs | apply upper_idem].
    + injection H as <-. apply MetricType_from_str_err in Hk. left.
      eexists. split; [exact Hk | apply upper_idem].
Qed.

(** The same errors, traced back to the component that raised them. *)
Lemma parse_metrics_err_src (cs : list (string * string)) (m : Environmental) (e : Error) :
  parse_metrics cs m = Err e ->
  (exists id value, In (id, value) cs
     /\ MetricType_from_str (to_ascii_uppercase id) = Err e
     /\ e = UnknownMetric (to_ascii_uppercase id))
  \/ (exists id value k, In (id, value) cs
        /\ MetricType_from_str (to_ascii_uppercase id) = Ok k
        /\ e = InvalidMetric k (to_ascii_uppercase value)).
Proof.
  revert m. induction cs as [|[id value] rest IH]; intros m H; cbn [parse_metrics] in H.
  - discriminate.
  - destruct (MetricType_from_str (to_ascii_uppercase id)) as [k|e1] eqn:Hk; cbn [bind] in H.
    + destruct (set_metric k (to_ascii_uppercase value) m) as [m'|e2] eqn:Hs; cbn [bind] in H.
      * destruct (IH m' H) as [[id' [v' [Hin [Hk' He]]]]|[id' [v' [k' [Hin [Hk' He]]]]]].
        -- left. exists id', v'. split; [right; exact Hin|]. auto.
        -- right. exists id', v', k'. split; [right; exact Hin|]. auto.
      * injection H as <-. apply set_metric_err in Hs. right.
        exists id, value, k. split; [left; reflexivity|]. auto.
    + injection H as <-. left. exists id, value.
      split; [left; reflexivity|]. split; [exact Hk|]. exact (MetricType_from_str_err _ _ Hk).
Qed.

Lemma collect_components_in (l : list string) (vec : list (string * string)) (x : string * string) :
  collect (map parse_component l) = Ok vec -> In x vec ->
  exists w, In w l /\ parse_component w = Ok x.
Proof.
  revert vec. induction l as [|w rest IH]; intros vec H Hin; cbn [map collect] in H.
  - injection H as <-. destruct Hin.
  - destruct (parse_component w) as [p|e1] eqn:Hp; cbn [bind] in H; [|discriminate].
    destruct (collect (map parse_component rest)) as [ps|e2] eqn:Hr; cbn [bind] in H; [|discriminate].
    injection H as <-. destruct Hin as [<-|Hin].
    + exists w. split; [left; reflexivity | exact Hp].
    + destruct (IH ps eq_refl Hin) as [w' [Hw' Hp']]. exists w'. split; [right|]; assumption.
Qed.

Lemma parse_metrics_minor (cs : list (string * string)) (m m' : Environmental) :
  parse_metrics cs m = Ok m' -> m'.(minor_version) = m.(minor_version).
Proof.
  revert m. induction cs as [|[id value] rest IH]; intros m H; cbn [parse_metrics] in H.
  - injection H as <-. reflexivity.
  - destruct (MetricType_from_str (to_ascii_uppercase id)) as [k|e1]; cbn [bind] in H; [|discriminate].
    destruct (set_metric k (to_ascii_uppercase value) m) as [m1|e2] eqn:Hs; cbn [bind] in H; [|discriminate].
    rewrite (IH m1 H). exact (set_metric_minor _ _ _ _ Hs).
Qed.

Lemma collect_components_err (l : list string) (e : Error) :
  collect (map parse_component l) = Err e ->
  exists comp, In comp l /\ parse_component comp = Err e /\ e = InvalidComponent comp.
Proof.
  induction l as [|x rest IH]; cbn [map collect]; intro H; [discriminate|].
  destruct (parse_component x) as [p|e1] eqn:Hp; cbn [bind] in H.
  - destruct (collect (map parse_component rest)) as [ps|e2]; cbn [bind] in H; [discriminate|].
    injection H as <-. destruct (IH eq_refl) as [comp [Hin [Hc ->]]]. exists comp. split; [right|]; auto.
  - injection H as <-. exists x. split; [left; reflexivity|]. split; [exact Hp|].
    unfold parse_component in Hp.
    destruct (split_on ":" x) as [|a [|b [|c0 r]]]; cbn in Hp; try discriminate Hp; injection Hp as <-; reflexivity.
Qed.

Lemma collect_components_head (w : string) (ws : list string) (vec : list (string * string)) :
  collect (map parse_component (w :: ws)) = Ok vec ->
  exists id v rest, parse_component w = Ok (id, v) /\ vec = (id, v) :: rest.
Proof.
  cbn [map collect]. destruct (parse_component w) as [[id v]|e]; cbn [bind]; intro H; [|discriminate].
  destruct (collect (map parse_component ws)) as [ps|e]; cbn [bind] in H; [|discriminate].
  injection H as <-. eauto.
Qed.

Lemma split_on_head (sep : ascii) (str w : string) (ws : list string) :
  split_on sep str = w :: ws ->
  has_char sep w = false /\ exists rest, str = w ++ rest.
Proof.
  revert w ws. induction str as [|ch rest IH]; intros w ws H; cbn in H.
  - injection H as <- _. split; [reflexivity|]. exists EmptyString. reflexivity.
  - destruct (Ascii.eqb ch sep) eqn:Hch.
    + injection H as <- _. split; [reflexivity|]. exists (String ch rest). reflexivity.
    + destruct (split_on sep rest) as [|w' ws'] eqn:Hs.
      * exfalso. exact (split_on_nonempty sep rest Hs).
      * injection H as <- _. destruct (IH w' ws' eq_refl) as [Hw [r Hr]].
        split; [cbn; rewrite Hch, Hw; reflexivity|].
        exists r. cbn. rewrite Hr. reflexivity.
Qed.

Lemma split_on_single (sep : ascii) (str v : string) :
  split_on sep str = [v] -> str = v.
Proof.
  revert v. induction str as [|ch rest IH]; intros v H; cbn in H.
  - injection H as <-. reflexivity.
  - destruct (Ascii.eqb ch sep).
    + injection H as _ H. exfalso. exact (split_on_nonempty sep rest H).
    + destruct (split_on sep rest) as [|w ws] eqn:Hs; [exfalso; exact (split_on_nonempty sep rest Hs)|].
      injection H as <- ->. rewrite (IH w eq_refl). reflexivity.
Qed.

Lemma split_on_pair (sep : ascii) (str id v : string) :
  split_on sep str = [id; v] -> str = id ++ String sep v.
Proof.
  revert id. induction str as [|ch rest IH]; intros id H; cbn in H.
  - discriminate.
  - destruct (Ascii.eqb ch sep) eqn:Hch.
    + injection H as <- H. apply Ascii.eqb_eq in Hch. subst ch.
      rewrite (split_on_single sep rest v H). reflexivity.
    + destruct (split_on sep rest) as [|w ws] eqn:Hs; [discriminate|].
      injection H as <- ->. cbn. rewrite (IH w eq_refl). reflexivity.
Qed.

Lemma parse_component_shape (comp id v : string) :
  parse_component comp = Ok (id, v) ->
  has_char ":" id = false /\ comp = id ++ ":" ++ v.
Proof.
  unfold parse_component.
  destruct (split_on ":" comp) as [|x [|y [|z r]]] eqn:Hs; intro H; cbn in H; try discriminate H.
  injection H as -> ->.
  destruct (split_on_head ":" comp id [v] Hs) as [Hid _].
  split; [exact Hid | exact (split_on_pair ":" comp id v Hs)].
Qed.

End ParseInv.

Module ParseExtra.
Import Env EnvParse Shape EnvDisplay ParseProps ParseInv DisplayProps.

Lemma minor_version_of_some (v : string) (n : nat) :
  minor_version_of v = Some n -> n = 0%nat \/ n = 1%nat.
Proof.
  unfold minor_version_of.
  destruct (String.eqb v "3.0"); [intro H; injection H as <-; auto|].
  destruct (String.eqb v "3.1"); [intro H; injection H as <-; auto | discriminate].
Qed.

(** Serializing an aggregate ([to_string]) and deserializing the text
    ([parse]) gives back its minor version and its eight Base metrics
    AV..A, with every other metric absent, when the minor version is 0 or
    1; any other minor version is written as ["3.<n>"] and rejected with
    [UnsupportedVersion]. *)
Theorem serialize_deserialize :
  forall m : Environmental,
  deserialize (serialize m)
  = if (m.(minor_version) <=? 1)%nat then Ok (displayed_fields m)
    else Err (UnsupportedVersion ("3." ++ usize_display m.(minor_version))).
Proof. intro m. exact (from_str_display m). Qed.

(** An aggregate produced by [from_str] has minor version 0 or 1, and
    serializing then deserializing it keeps only its Base metrics: an
    aggregate whose E is set does not survive the round trip. *)
Theorem from_str_reserialize :
  forall (str : string) (m : Environmental),
  from_str str = Ok m ->
  (m.(minor_version) = 0%nat \/ m.(minor_version) = 1%nat)
  /\ deserialize (serialize m) = Ok (displayed_fields m)
  /\ (m.(e) <> None -> deserialize (serialize m) <> Ok m).
Proof.
  intros str m H.
  assert (Hmv : m.(minor_version) = 0%nat \/ m.(minor_version) = 1%nat).
  { unfold from_str in H.
    destruct (collect (map parse_component (split_on "/" str))) as [vec|err]; cbn [bind] in H; [|discriminate].
    destruct vec as [|[id ver] cs]; [discriminate|].
    destruct (negb (String.eqb id PREFIX)); [discriminate|].
    destruct (minor_version_of ver) as [n|] eqn:Hv; [|discriminate].
    rewrite (parse_metrics_minor _ _ _ H). exact (minor_version_of_some ver n Hv). }
  assert (Hrt : deserialize (serialize m) = Ok (displayed_fields m)).
  { unfold deserialize, serialize. rewrite from_str_display.
    destruct Hmv as [-> | ->]; reflexivity. }
  split; [exact Hmv | split; [exact Hrt|]].
  intros He Heq. rewrite Hrt in Heq. injection Heq as Heq.
  apply He. rewrite <- Heq. reflexivity.
Qed.

(** Appending the [Display] text of an Exploit Code Maturity value as one
    more component to a vector string that parses sets [e] to that value
    and changes nothing else. *)
Theorem from_str_append_e :
  forall (v : string) (cs : list (string * string)) (m : Environmental)
         (x : Temporal.ExploitCodeMaturity),
  clean v = true -> clean_components cs = true ->
  from_str (render PREFIX v cs) = Ok m ->
  from_str (render PREFIX v cs ++ "/" ++ metric_display x) = Ok (set_e (Some x) m).
Proof.
  intros v cs m x Hv Hcs H.
  assert (Hcs' : clean_components (cs ++ [(MetricType_name MetricType.E, as_str x)]) = true).
  { rewrite clean_components_app, Hcs. destruct x; reflexivity. }
  replace (render PREFIX v cs ++ "/" ++ metric_display x)
    with (render PREFIX v (cs ++ [(MetricType_name MetricType.E, as_str x)])).
  2:{ unfold render, metric_display. rewrite render_components_app.
      cbn [render_components]. rewrite append_empty_str, !append_assoc_str. reflexivity. }
  rewrite (from_str_render PREFIX v _ eq_refl Hv Hcs').
  rewrite (from_str_render PREFIX v _ eq_refl Hv Hcs) in H.
  destruct (negb (String.eqb PREFIX PREFIX)); [discriminate|].
  destruct (minor_version_of v); [|discriminate].
  rewrite parse_metrics_app, H. cbn [bind].
  destruct x; reflexivity.
Qed.

(** The [UnknownMetric] and [InvalidMetric] errors of [from_str] come from
    a component [id:value] of the input: [UnknownMetric] carries [id]
    upper-cased, which the registry does not know; [InvalidMetric] carries
    the kind that [id] upper-cased names and [value] upper-cased, not as it
    was written. *)
Theorem from_str_error_text_upper :
  forall str : string,
  (forall n, from_str str = Err (UnknownMetric n) ->
     exists w id value, In w (split_on "/" str) /\ parse_component w = Ok (id, value)
       /\ n = to_ascii_uppercase id /\ MetricType_from_str n = Err (UnknownMetric n))
  /\ (forall k v, from_str str = Err (InvalidMetric k v) ->
        exists w id value, In w (split_on "/" str) /\ parse_component w = Ok (id, value)
          /\ MetricType_from_str (to_ascii_uppercase id) = Ok k
          /\ v = to_ascii_uppercase value).
Proof.
  intro str.
  assert (Hgen : forall err, from_str str = Err err ->
            (exists comp, err = InvalidComponent comp) \/ (exists p, err = InvalidPrefix p)
            \/ (exists v, err = UnsupportedVersion v)
            \/ (exists w id value, In w (split_on "/" str) /\ parse_component w = Ok (id, value)
                  /\ MetricType_from_str (to_ascii_uppercase id) = Err err
                  /\ err = UnknownMetric (to_ascii_uppercase id))
            \/ (exists w id value k, In w (split_on "/" str) /\ parse_component w = Ok (id, value)
                  /\ MetricType_from_str (to_ascii_uppercase id) = Ok k
                  /\ err = InvalidMetric k (to_ascii_uppercase value))).
  { intros err H. unfold from_str in H.
    destruct (collect (map parse_component (split_on "/" str))) as [vec|e0] eqn:Hc; cbn [bind] in H.
    - destruct vec as [|[id0 ver] cs]; [injection H as <-; eauto|].
      destruct (negb (String.eqb id0 PREFIX)); [injection H as <-; eauto|].
      destruct (minor_version_of ver); [|injection H as <-; eauto 6].
      apply parse_metrics_err_src in H.
      destruct H as [[id [value [Hin [Hk He]]]]|[id [value [k [Hin [Hk He]]]]]].
      + destruct (collect_components_in _ _ (id, value) Hc (or_intror Hin)) as [w [Hw Hp]].
        do 3 right. left. exists w, id, value. auto.
      + destruct (collect_components_in _ _ (id, value) Hc (or_intror Hin)) as [w [Hw Hp]].
        do 4 right. exists w, id, value, k. auto.
    - injection H as <-. apply collect_components_err in Hc as [comp [_ [_ ->]]]. eauto. }
  split.
  - intros n H. apply Hgen in H.
    destruct H as [[? H]|[[? H]|[[? H]|[[w [id [value [Hw [Hp [Hk He]]]]]]|
                   [w [id [value [k [Hw [Hp [Hk He]]]]]]]]]]]; try discriminate H.
    + injection He as ->. exists w, id, value. auto.
    + discriminate He.
  - intros k v H. apply Hgen in H.
    destruct H as [[? H]|[[? H]|[[? H]|[[w [id [value [Hw [Hp [Hk He]]]]]]|
                   [w [id [value [k' [Hw [Hp [Hk He]]]]]]]]]]]; try discriminate H.
    + discriminate He.
    + injection He as -> ->. exists w, id, value. auto.
Qed.

(** [InvalidComponent] names one of the ['/']-separated components of the
    input, one without exactly one [':']; [InvalidPrefix] names the text
    before the first [':'] of the input (never the whole input), which
    holds no ['/'] and no [':'] and differs from [PREFIX]. *)
Theorem from_str_error_location :
  forall str : string,
  (forall comp, from_str str = Err (InvalidComponent comp) ->
     In comp (split_on "/" str) /\ count_char ":" comp <> 1%nat)
  /\ (forall p, from_str str = Err (InvalidPrefix p) ->
        p <> PREFIX /\ clean p = true /\ exists rest, str = p ++ ":" ++ rest).
Proof.
  intro str. unfold from_str.
  destruct (split_on "/" str) as [|w ws] eqn:Hs; [exfalso; exact (split_on_nonempty _ _ Hs)|].
  destruct (collect (map parse_component (w :: ws))) as [vec|e0] eqn:Hc; cbn [bind].
  - destruct (collect_components_head w ws vec Hc) as [id [ver [cs [Hw ->]]]].
    destruct (negb (String.eqb id PREFIX)) eqn:Hid.
    + split; [intros comp H; discriminate H|].
      intros p H. injection H as <-.
      destruct (String.eqb_spec id PREFIX) as [_|Hne]; [discriminate|].
      destruct (split_on_head "/" str w ws Hs) as [Hw1 [rest Hrest]].
      destruct (parse_component_shape w id ver Hw) as [Hid1 Hweq].
      subst w.
      rewrite !has_char_app in Hw1. apply orb_false_iff in Hw1 as [Hid2 _].
      split; [exact Hne|]. split.
      * unfold clean. rewrite Hid1, Hid2. reflexivity.
      * exists (ver ++ rest). rewrite Hrest, !append_assoc_str. reflexivity.
    + assert (Hnot : forall err, (match minor_version_of ver with
                 | Some minor => parse_metrics cs (mkEnvironmental minor None None None None None
                                  None None None None None None None None None)
                 | None => Err (UnsupportedVersion ver) end) = Err err ->
                 (exists n, err = UnknownMetric n) \/ (exists k v, err = InvalidMetric k v)
                 \/ err = UnsupportedVersion ver).
      { intros err H. destruct (minor_version_of ver).
        - apply parse_metrics_err in H as [[n0 [-> _]]|[k0 [v0 [-> _]]]]; eauto.
        - injection H as <-. auto. }
      split.
      * intros comp H. apply Hnot in H as [[? H]|[[? [? H]]|H]]; discriminate H.
      * intros p H. apply Hnot in H as [[? H]|[[? [? H]]|H]]; discriminate H.
  - apply collect_components_err in Hc as [comp [Hin [Hp ->]]].
    split; [|intros p H; discriminate H].
    intros comp' H. injection H as <-. split; [exact Hin|].
    intro H1. destruct (parse_component_one_colon comp H1) as [id [v Hok]]. congruence.
Qed.

(** Swapping two adjacent components whose ids [MetricType::from_str]
    maps (after upper-casing) to different kinds does not change a
    successful parse. Kinds are those of the lookup, not of the acronyms:
    ["RC"] is looked up as [RL], so an [RL] and an [RC] component do not
    commute, the later one setting [rl]. *)
Theorem from_str_swap_components :
  (forall (v : string) (pre post : list (string * string)) (id1 v1 id2 v2 : string)
          (k1 k2 : MetricType) (m : Environmental),
   clean v = true ->
   clean_components (pre ++ (id1, v1) :: (id2, v2) :: post) = true ->
   MetricType_from_str (to_ascii_uppercase id1) = Ok k1 ->
   MetricType_from_str (to_ascii_uppercase id2) = Ok k2 ->
   k1 <> k2 ->
   from_str (render PREFIX v (pre ++ (id1, v1) :: (id2, v2) :: post)) = Ok m ->
   from_str (render PREFIX v (pre ++ (id2, v2) :: (id1, v1) :: post)) = Ok m)
  /\ from_str "CVSS:3.1/RL:W/RC:U"
     = Ok (set_rl (Some V3.RL_Unavailable) (mkEnvironmental 1 None None None None None None
             None None None None None None None None))
  /\ from_str "CVSS:3.1/RC:U/RL:W"
     = Ok (set_rl (Some V3.RL_Workaround) (mkEnvironmental 1 None None None None None None
             None None None None None None None None)).
Proof.
  split; [| split; vm_compute; reflexivity].
  intros v pre post id1 v1 id2 v2 k1 k2 m Hv Hcs Hk1 Hk2 Hne H.
  assert (Hcs' : clean_components (pre ++ (id2, v2) :: (id1, v1) :: post) = true).
  { rewrite clean_components_app in Hcs |- *. apply andb_true_iff in Hcs as [Ha Hb].
    rewrite Ha. cbn in Hb |- *.
    destruct (clean id1), (clean v1), (clean id2), (clean v2); cbn in Hb |- *; try discriminate; exact Hb. }
  rewrite (from_str_render PREFIX v _ eq_refl Hv Hcs) in H.
  rewrite (from_str_render PREFIX v _ eq_refl Hv Hcs').
  destruct (negb (String.eqb PREFIX PREFIX)); [exact H|].
  destruct (minor_version_of v) as [minor|]; [|exact H].
  rewrite parse_metrics_app in H |- *.
  destruct (parse_metrics pre _) as [m0|e0]; cbn [bind] in H |- *; [|exact H].
  cbn [parse_metrics] in H |- *. rewrite Hk1 in H. rewrite Hk2. cbn [bind] in H |- *.
  destruct (set_metric k1 (to_ascii_uppercase v1) m0) as [m1|e1] eqn:H1; cbn [bind] in H; [|discriminate].
  rewrite Hk2 in H. cbn [bind] in H.
  destruct (set_metric k2 (to_ascii_uppercase v2) m1) as [m12|e2] eqn:H12; cbn [bind] in H; [|discriminate].
  destruct (set_metric k2 (to_ascii_uppercase v2) m0) as [m2|e2] eqn:H2.
  2:{ apply (set_metric_err_indep _ _ _ m1) in H2. congruence. }
  destruct (set_metric_commute _ _ _ _ _ _ _ Hne H1 H2) as [m12' [Ha Hb]].
  rewrite H12 in Ha. injection Ha as <-.
  cbn [bind]. rewrite Hk1. cbn [bind]. rewrite Hb. cbn [bind]. exact H.
Qed.

End ParseExtra.

Module ScoreExtra.
Import Env Shape.

Lemma roundup_ge (x : Q) : x <= roundup x.
Proof.
  unfold roundup.
  pose proof (Qle_ceiling (x * 100000)) as H1.
  pose proof (Qle_ceiling (inject_Z (Qceiling (x * 100000)) / 10000)) as H2.
  set (c1 := inject_Z (Qceiling (x * 100000))) in *.
  set (z := inject_Z (Qceiling (c1 / 10000))) in *.
  unfold Qdiv in *.
  change (/ 10000) with (1 # 10000) in *. change (/ 10) with (1 # 10).
  lra.
Qed.

Lemma score_or_zero_nonneg {T : Type} (f : T -> Q) (o : option T) :
  (forall v, 0 <= f v) -> 0 <= score_or_zero f o.
Proof. intro Hf. destruct o as [v|]; cbn; [apply Hf | apply Qle_refl]. Qed.

Lemma exploitability_nonneg (m : Environmental) : 0 <= value (exploitability m).
Proof.
  unfold exploitability. cbn [value].
  repeat apply Qmult_le_0_compat;
    try (apply score_or_zero_nonneg; intros []; try destruct (is_scope_changed m));
    cbv; discriminate.
Qed.

(** [iss_scoped] reads only [s], [c], [i] and [a]. *)
Lemma iss_scoped_fields (m : Environmental) :
  iss_scoped m = iss_scoped (mkEnvironmental 0 None None None None m.(s) m.(c) m.(i) m.(a)
                               None None None None None None).
Proof. reflexivity. Qed.

Lemma no_level_dec (o : option V3.Impact) : {no_level o} + {~ no_level o}.
Proof.
  unfold no_level. destruct o as [[]|];
    first [ left; first [left; reflexivity | right; reflexivity] | right; intros [H|H]; discriminate H ].
Defined.

Lemma iss_scoped_sign (m : Environmental) :
  (no_level m.(c) /\ no_level m.(i) /\ no_level m.(a) -> iss_scoped m <= 0)
  /\ (~ (no_level m.(c) /\ no_level m.(i) /\ no_level m.(a)) -> 0 < iss_scoped m).
Proof.
  rewrite iss_scoped_fields. unfold no_level.
  destruct m.(s) as [[]|], m.(c) as [[]|], m.(i) as [[]|], m.(a) as [[]|];
    split; intro H;
    first [ vm_compute; discriminate
          | vm_compute; reflexivity
          | exfalso; apply H; repeat split; auto
          | exfalso; destruct H as [[Hc|Hc] [[Hi|Hi] [Ha|Ha]]]; discriminate ].
Qed.

Lemma score_pos (m : Environmental) :
  0 < iss_scoped m -> 0 < value (Environmental_score m).
Proof.
  intro Hlt.
  assert (Hb : Qle_bool (iss_scoped m) 0 = false).
  { destruct (Qle_bool (iss_scoped m) 0) eqn:Hq; [|reflexivity].
    apply Qle_bool_iff in Hq. exfalso. apply (Qlt_not_le _ _ Hlt Hq). }
  pose proof (exploitability_nonneg m) as He.
  unfold Environmental_score. cbn [value Score_roundup]. rewrite Hb.
  set (x := value (exploitability m)) in *.
  eapply Qlt_le_trans; [| apply roundup_ge].
  destruct (negb (is_scope_changed m)); apply Q.min_glb_lt; lra.
Qed.

(** [score()] is 0.0 exactly when none of C, I and A is present with a
    Low or High level, whatever the other metrics. *)
Theorem score_zero_iff_no_cia :
  forall m : Environmental,
  value (Environmental_score m) == 0
  <-> no_level m.(c) /\ no_level m.(i) /\ no_level m.(a).
Proof.
  intro m. destruct (iss_scoped_sign m) as [Hz Hp]. split.
  - intro H0.
    assert (Hn : no_level m.(c) /\ no_level m.(i) /\ no_level m.(a) \/
                 ~ (no_level m.(c) /\ no_level m.(i) /\ no_level m.(a))).
    { destruct (no_level_dec m.(c)), (no_level_dec m.(i)), (no_level_dec m.(a)); tauto. }
    destruct Hn as [Hn|Hn]; [exact Hn|].
    exfalso. pose proof (score_pos m (Hp Hn)) as Hpos. lra.
  - intro Hn. specialize (Hz Hn).
    unfold Environmental_score. apply Qle_bool_iff in Hz. rewrite Hz. reflexivity.
Qed.

(** [score()] is always k/10 for a whole number k between 0 and 100. *)
Theorem score_in_tenths :
  forall m : Environmental,
  exists k : Z, (0 <= k <= 100)%Z /\ value (Environmental_score m) = inject_Z k / 10.
Proof.
  intro m.
  assert (Hy : exists y, 0 <= y <= 10 /\ value (Environmental_score m) = roundup y).
  { unfold Environmental_score. cbn [value Score_roundup].
    destruct (Qle_bool (iss_scoped m) 0) eqn:Hq.
    - exists 0. split; [split; discriminate | reflexivity].
    - assert (Hlt : 0 < iss_scoped m).
      { apply Qnot_le_lt. intro H. apply Qle_bool_iff in H. congruence. }
      pose proof (exploitability_nonneg m) as He.
      set (x := value (exploitability m)) in *.
      destruct (negb (is_scope_changed m)).
      + exists (Qmin (iss_scoped m + x) 10).
        split; [split; [apply Q.min_glb; lra | apply Q.le_min_r] | reflexivity].
      + exists (Qmin ((108 # 100) * (iss_scoped m + x)) 10).
        split; [split; [apply Q.min_glb; lra | apply Q.le_min_r] | reflexivity]. }
  destruct Hy as [y [[Hy0 Hy10] ->]].
  pose proof (roundup_ge y) as Hge. pose proof (ScoreProps.roundup_le_10 y Hy10) as Hle.
  unfold roundup in *.
  set (z := Qceiling (inject_Z (Qceiling (y * 100000)) / 10000)) in *.
  exists z. split; [| reflexivity].
  rewrite !Zle_Qle. set (qz := inject_Z z) in *.
  unfold Qdiv in *. change (/ 10) with (1 # 10) in *.
  change (inject_Z 0) with 0. change (inject_Z 100) with 100.
  split; lra.
Qed.

(** [exploitability] reads only [av], [ac], [pr], [ui] and [s]. *)
Lemma exploitability_fields (m : Environmental) :
  exploitability m = exploitability (mkEnvironmental 0 m.(av) m.(ac) m.(pr) m.(ui) m.(s)
                                       None None None None None None None None None).
Proof. reflexivity. Qed.

(** [exploitability()] lies between 0 and 8.22 × 0.85 × 0.77 × 0.85 × 0.85,
    and is 0 whenever any of AV, AC, PR and UI is absent. *)
Theorem exploitability_range :
  forall m : Environmental,
  0 <= value (exploitability m) <= (822 # 100) * (85 # 100) * (77 # 100) * (85 # 100) * (85 # 100)
  /\ (m.(av) = None \/ m.(ac) = None \/ m.(pr) = None \/ m.(ui) = None ->
      value (exploitability m) == 0).
Proof.
  intro m. rewrite exploitability_fields.
  destruct m.(av) as [[]|], m.(ac) as [[]|], m.(pr) as [[]|], m.(ui) as [[]|], m.(s) as [[]|];
    (split; [split; vm_compute; discriminate
            | intros H; first [ reflexivity
                              | exfalso; destruct H as [H|[H|[H|H]]]; discriminate H ]]).
Qed.

End ScoreExtra.

(** * Witnesses: the theorems above applied at concrete inputs *)
Module Witnesses.
Import Env EnvParse Shape.

Lemma derived_order_vs_weight_witness :
  derived_lt V4.Physical V4.Network /\ score V4.Physical < score V4.Network.
Proof.
  assert (H : derived_lt V4.Physical V4.Network) by (unfold derived_lt; vm_compute; lia).
  split; [exact H|].
  destruct ValueProps.derived_order_vs_weight as [Hav _]. exact (Hav _ _ H).
Defined.

Lemma score_zero_or_clamped_witness :
  let m98 := mkEnvironmental 1 (Some V3.Network) (Some V3.AC_Low) (Some V3.PR_None)
               (Some V3.UI_None) (Some V3.Unchanged) (Some V3.Imp_High) (Some V3.Imp_High)
               (Some V3.Imp_High) None None None None None None in
  (iss_scoped Environmental_default <= 0
   /\ value (Environmental_score Environmental_default) == 0)
  /\ (0 < iss_scoped m98 /\ value (Environmental_score m98) <= 10).
Proof.
  intro m98.
  assert (H0 : iss_scoped Environmental_default <= 0)
    by (apply Qle_bool_imp_le; vm_compute; reflexivity).
  assert (H1 : 0 < iss_scoped m98) by (vm_compute; reflexivity).
  split; split; try assumption.
  - exact (proj1 (ScoreProps.score_zero_or_clamped Environmental_default) H0).
  - exact (proj2 (proj2 (ScoreProps.score_zero_or_clamped m98) H1)).
Defined.

Lemma from_str_rejects_malformed_witness :
  (exists good bad rest,
     split_on "/" "XX:3.1/AV" = (good ++ bad :: rest)%list
     /\ Forall (fun w => count_char ":" w = 1%nat) good
     /\ count_char ":" bad <> 1%nat
     /\ from_str "XX:3.1/AV" = Err (InvalidComponent bad))
  /\ from_str (render "XX" "3.1" [("AV", "N")]) = Err (InvalidPrefix "XX")
  /\ from_str (render PREFIX "2.0" [("AV", "N")]) = Err (UnsupportedVersion "2.0")
  /\ from_str (render PREFIX "3.1" ([("AV", "N")] ++ ("zz", "n") :: []))
     = Err (UnknownMetric (to_ascii_uppercase "zz")).
Proof.
  destruct ParseProps.from_str_rejects_malformed as [Ha [Hb [Hc Hd]]].
  split; [| split; [| split]].
  - apply (Ha "XX:3.1/AV" "AV"); vm_compute; [auto | discriminate].
  - apply Hb; vm_compute; [reflexivity | reflexivity | reflexivity | discriminate].
  - apply Hc; vm_compute; [reflexivity | reflexivity | discriminate | discriminate].
  - eapply Hd; [vm_compute; reflexivity | vm_compute; reflexivity
               | intro k; destruct k; vm_compute; discriminate
               | vm_compute; reflexivity].
Defined.

Lemma from_str_duplicate_last_wins_witness :
  from_str (render PREFIX "3.1" ([] ++ ("E", "F") :: [("AV", "N")] ++ ("e", "h") :: []))
  = from_str (render PREFIX "3.1" ([] ++ [("AV", "N")] ++ ("e", "h") :: []))
  /\ from_str (render PREFIX "3.1" ([] ++ [("AV", "N")] ++ ("e", "h") :: []))
     = Ok (set_e (Some Temporal.High)
             (set_av (Some V3.Network) (mkEnvironmental 1 None None None None None None
                None None None None None None None None))).
Proof.
  split; [| vm_compute; reflexivity].
  eapply (ParseProps.from_str_duplicate_last_wins PREFIX "3.1" [] [("AV", "N")] []
            "E" "F" "e" "h" MetricType.E);
    vm_compute; reflexivity.
Defined.

Lemma from_str_case_folding_witness :
  from_str (render PREFIX "3.1" (map lower_component [("E", "F"); ("AV", "N")]))
  = from_str (render PREFIX "3.1" [("E", "F"); ("AV", "N")])
  /\ from_str (render (to_ascii_lowercase PREFIX) "3.1" [("E", "F")])
     = Err (InvalidPrefix (to_ascii_lowercase PREFIX)).
Proof.
  destruct ParseProps.from_str_case_folding as [Hl Hp].
  split; [apply Hl | apply Hp]; vm_compute; reflexivity.
Defined.

End Witnesses.

(** * Witnesses of the further properties *)
Module ExtraWitnesses.
Import Env EnvParse Shape EnvDisplay.

Lemma from_str_reserialize_witness :
  let m := set_e (Some Temporal.Functional)
             (set_av (Some V3.Network) (mkEnvironmental 1 None None None None None None None
                None None None None None None None)) in
  from_str "CVSS:3.1/AV:N/e:f" = Ok m
  /\ deserialize (serialize m) = Ok (displayed_fields m)
  /\ deserialize (serialize m) <> Ok m.
Proof.
  intro m.
  assert (H : from_str "CVSS:3.1/AV:N/e:f" = Ok m) by (vm_compute; reflexivity).
  destruct (ParseExtra.from_str_reserialize _ _ H) as [_ [H2 H3]].
  split; [exact H | split; [exact H2 | apply H3; discriminate]].
Defined.

Lemma from_str_append_e_witness :
  let m := set_av (Some V3.Network) (mkEnvironmental 1 None None None None None None None
             None None None None None None None) in
  from_str (render PREFIX "3.1" [("AV", "N")]) = Ok m
  /\ from_str (render PREFIX "3.1" [("AV", "N")] ++ "/" ++ metric_display Temporal.Unproven)
     = Ok (set_e (Some Temporal.Unproven) m).
Proof.
  intro m.
  assert (H : from_str (render PREFIX "3.1" [("AV", "N")]) = Ok m) by (vm_compute; reflexivity).
  split; [exact H|].
  apply (ParseExtra.from_str_append_e "3.1" [("AV", "N")] m Temporal.Unproven);
    [vm_compute; reflexivity | vm_compute; reflexivity | exact H].
Defined.

Lemma from_str_swap_components_witness :
  let m := set_e (Some Temporal.Unproven)
             (set_av (Some V3.Network) (mkEnvironmental 1 None None None None None None None
                None None None None None None None)) in
  from_str (render PREFIX "3.1" ([] ++ ("AV", "N") :: ("e", "u") :: [])) = Ok m
  /\ from_str (render PREFIX "3.1" ([] ++ ("e", "u") :: ("AV", "N") :: [])) = Ok m.
Proof.
  intro m.
  assert (H : from_str (render PREFIX "3.1" ([] ++ ("AV", "N") :: ("e", "u") :: [])) = Ok m)
    by (vm_compute; reflexivity).
  split; [exact H|].
  apply (proj1 ParseExtra.from_str_swap_components "3.1" [] [] "AV" "N" "e" "u"
           MetricType.AV MetricType.E m);
    [vm_compute; reflexivity | vm_compute; reflexivity | vm_compute; reflexivity
    | vm_compute; reflexivity | discriminate | exact H].
Defined.

End ExtraWitnesses.
